(** * clh-bash: the view-model of the typing game (src/app.js)

    A shallow embedding of [src/app.js]: the keystroke filter
    [validKeycode], the key handlers of the Vue instance, the command test
    [testCmd], the phase switch [toState] and the golden-command sampler
    [pickGoldenCommands], followed by the properties proved about them.

    Conventions.
    - JavaScript numbers that hold key codes, counters, lengths and the
      score are integers far below 2^53; they are modelled as [Z].
    - JavaScript strings are modelled as [string]; a character is one
      [ascii] (read as a Latin-1 code unit).
    - The module-level variable [ctrl_down], the Vue data object, the
      textarea and the queue of [$nextTick] callbacks form the [World]
      that every handler receives and returns.
    - [keycodes.js], [states.js], [cmds.js] and [config.js] are imported
      by [app.js] but are separate files.  The key-code table, the
      dictionary, the configuration and the matcher [cmds.find] are
      parameters of the handlers; where a statement is about the matcher
      itself, it is the one the specification describes ([find]). *)

From Stdlib Require Import ZArith Lia Bool Ascii String List Permutation.
From stdpp Require Import base tactics option list strings.

Local Open Scope Z_scope.

(* ================================================================== *)
(** ** JavaScript strings *)
(* ================================================================== *)

Module JS.

(** The line feed, ["\n"]. *)
Definition LF : ascii := Ascii.ascii_of_nat 10.

(** [s.length] *)
Definition length (s : string) : Z := Z.of_nat (String.length s).

(** [s[i]]: the character at index [i], [undefined] ([None]) when [i] is
    not an index of [s] (in particular for [i = -1]). *)
Definition index (s : string) (i : Z) : option ascii :=
  if i <? 0 then None else String.get (Z.to_nat i) s.

(** [s.split(sep)] for a separator of one character.  The result is never
    empty: a string without separator is returned whole. *)
Fixpoint split (sep : ascii) (s : string) : list string :=
  match s with
  | EmptyString => [EmptyString]
  | String c s' =>
      if Ascii.eqb c sep then EmptyString :: split sep s'
      else match split sep s' with
           | h :: t => String c h :: t
           | [] => [String c EmptyString]
           end
  end.

(** White space and line terminators removed by [String.prototype.trim],
    restricted to Latin-1: TAB, LF, VT, FF, CR, SP and NBSP. *)
Definition isWhiteSpace (c : ascii) : bool :=
  let n := Ascii.nat_of_ascii c in
  (Nat.leb 9 n && Nat.leb n 13) || Nat.eqb n 32 || Nat.eqb n 160.

Fixpoint trimStart (s : string) : string :=
  match s with
  | EmptyString => EmptyString
  | String c s' => if isWhiteSpace c then trimStart s' else s
  end.

Fixpoint trimEnd (s : string) : string :=
  match s with
  | EmptyString => EmptyString
  | String c s' =>
      match trimEnd s' with
      | EmptyString => if isWhiteSpace c then EmptyString
                       else String c EmptyString
      | r => String c r
      end
  end.

(** [s.trim()] *)
Definition trim (s : string) : string := trimEnd (trimStart s).

(** [s.startsWith(p)] *)
Definition startsWith (p s : string) : bool := String.prefix p s.

(** [s.endsWith(p)] *)
Definition endsWith (p s : string) : bool :=
  let n := String.length s in
  let m := String.length p in
  Nat.leb m n && String.eqb (String.substring (n - m) m s) p.

(** [!!s] for a value that is a string or [undefined]: only a non-empty
    string is truthy. *)
Definition truthy (v : option string) : bool :=
  match v with
  | Some s => negb (String.eqb s EmptyString)
  | None => false
  end.

End JS.

(* ================================================================== *)
(** ** The lodash functions the file calls *)
(* ================================================================== *)

Module Lodash.

(** [_.inRange(number, start, end)]: [start <= number < end], the two
    bounds being swapped when [start > end]. *)
Definition inRange (number start end_ : Z) : bool :=
  (Z.min start end_ <=? number) && (number <? Z.max start end_).

(** [_.last(array)]: the last element, [undefined] for an empty array. *)
Definition last {A} (array : list A) : option A :=
  List.last (List.map Some array) None.

(** [Math.random] as an explicit source of draws: [draw k] is the value the
    [k]-th call produces, read as a natural number that the caller reduces
    to the range it asks for. *)
Definition Random := nat -> nat.

(** [baseRandom(lower, upper)]: an integer between [lower] and [upper],
    both included, and the source with that draw consumed. *)
Definition baseRandom (lower upper : nat) (g : Random) : nat * Random :=
  (lower + g O mod (upper - lower + 1), fun k => g (S k))%nat.

(** [baseClamp(number, lower, upper)] *)
Definition baseClamp (number lower upper : Z) : Z :=
  let number := if number <=? upper then number else upper in
  if number >=? lower then number else lower.

(** The loop of [shuffleSelf]: [n] iterations are left, [index] is the
    position being filled.  [rand] and [index] are always positions of
    [array] here, so the exchange never writes past its end. *)
Fixpoint shuffleLoop {A} (n index : nat) (array : list A) (g : Random)
    : list A * Random :=
  match n with
  | O => (array, g)
  | S n' =>
      let lastIndex := (List.length array - 1)%nat in
      let '(rand, g) := baseRandom index lastIndex g in
      let array :=
        match array !! rand, array !! index with
        | Some value, Some x => <[index := value]> (<[rand := x]> array)
        | _, _ => array
        end in
      shuffleLoop n' (S index) array g
  end.

(** [shuffleSelf(array, size)]: a partial Fisher-Yates shuffle, after which
    the array is cut to [size] elements. *)
Definition shuffleSelf {A} (array : list A) (size : nat) (g : Random)
    : list A * Random :=
  let '(array, g) := shuffleLoop size O array g in
  (take size array, g).

(** [_.sampleSize(collection, n)] on an array. *)
Definition sampleSize {A} (collection : list A) (n : Z) (g : Random)
    : list A * Random :=
  shuffleSelf collection
    (Z.to_nat (baseClamp n 0 (Z.of_nat (List.length collection)))) g.

End Lodash.

(* ================================================================== *)
(** ** keycodes.js (a table of constants, taken as a parameter) *)
(* ================================================================== *)

Record Range := { start : Z; end_ : Z }.

Record KeyCodes := {
  enter : Z;
  ctrl : Z;
  left_arrow : Z;
  right_arrow : Z;
  backspace : Z;
  nums : Range;
  alpha : Range;
  punct : Range
}.

(** The usual DOM key codes, used to run the definitions on concrete
    events. *)
Definition domKeyCodes : KeyCodes :=
  {| enter := 13; ctrl := 17; left_arrow := 37; right_arrow := 39;
     backspace := 8;
     nums := {| start := 48; end_ := 57 |};
     alpha := {| start := 65; end_ := 90 |};
     punct := {| start := 186; end_ := 222 |} |}.

(** A key event: the code of the key, and whether [preventDefault] was
    called on it. *)
Record KeyboardEvent := {
  keyCode : Z;
  defaultPrevented : bool
}.

Definition key_event (kc : Z) : KeyboardEvent :=
  {| keyCode := kc; defaultPrevented := false |}.

Definition preventDefault (ev : KeyboardEvent) : KeyboardEvent :=
  {| keyCode := keyCode ev; defaultPrevented := true |}.

(* ================================================================== *)
(** ** validKeycode *)
(* ================================================================== *)

Section Filter.

Variable keyCodes : KeyCodes.

(** [validKeycode(ev, leftChar)], with the module variable [ctrl_down]
    passed in and returned next to the verdict. *)
Definition validKeycode (ev : KeyboardEvent) (leftChar : option ascii)
    (ctrl_down : bool) : bool * bool :=
  let kc := keyCode ev in
  let ctrl_down := if kc =? ctrl keyCodes then true else ctrl_down in
  if ctrl_down then (false, ctrl_down)
  else
    let alphanumeric :=
      Lodash.inRange kc (start (nums keyCodes)) (end_ (nums keyCodes) + 1)
      || Lodash.inRange kc (start (alpha keyCodes)) (end_ (alpha keyCodes) + 1)
      || Lodash.inRange kc (start (punct keyCodes)) (end_ (punct keyCodes) + 1) in
    let valid_other :=
      existsb (Z.eqb kc) [enter keyCodes; right_arrow keyCodes]
      || (negb (bool_decide (leftChar = Some JS.LF))
          && ((kc =? left_arrow keyCodes) || (kc =? backspace keyCodes))) in
    (alphanumeric || valid_other, ctrl_down).

End Filter.

(* ================================================================== *)
(** ** states.js, cmds.js and config.js *)
(* ================================================================== *)

Module STATES.
(** Modelled from the spec: [states.js] is not among the sources; the
    phases are the four the specification names, [loading], [title],
    [play] and [end]. *)
Inductive t := loading | title | play | end'.

#[global] Instance eq_dec : EqDecision t.
Proof. solve_decision. Defined.
End STATES.

Module Lang.
(** The language tags under which [cmds.cmdsByLang] files its commands;
    they are also the per-language keys of [count]. *)
Inductive t := bash | js | py | html.

#[global] Instance eq_dec : EqDecision t.
Proof. solve_decision. Defined.

Definition all : list t := [bash; js; py; html].
End Lang.

(** [cmds.cmdsByLang[lang].cmds]: the command list of each language. *)
Definition Dictionary := Lang.t -> list string.

Module Match.
(** What [cmds.find] returns: the matched command (absent when nothing
    matched) and the languages it was found under. *)
Record t := { cmd : option string; lang : list Lang.t }.
End Match.

Section Cmds.

Variable cmdsByLang : Dictionary.

(** [cmds.includes(line)] *)
Definition includes (line : string) (cmds : list string) : bool :=
  existsb (String.eqb line) cmds.

(** Modelled from the spec: the function [find] of [cmds.js], which is
    not among the sources.  The lookup is a case-sensitive exact-string
    match of [line] against every command of every language; the empty
    line is not matched and has no language; otherwise the languages are
    all those whose list holds exactly [line], and the line is matched
    when there is one. *)
Definition find (line : string) : Match.t :=
  if String.eqb line EmptyString then {| Match.cmd := None; Match.lang := [] |}
  else
    let langs := List.filter (fun l => includes line (cmdsByLang l)) Lang.all in
    {| Match.cmd := match langs with [] => None | _ => Some line end;
       Match.lang := langs |}.

End Cmds.

Record Config := {
  GOLDEN_CMDS_MAX_LENGTH : Z;
  GOLDEN_CMDS_PER_LANG : Z
}.


(* ================================================================== *)
(** ** The data of the Vue instance and the world around it *)
(* ================================================================== *)

(** [data.count] *)
Record Count := {
  js : Z;
  bash : Z;
  html : Z;
  py : Z;
  totalValidCharacters : Z;
  totalValidCommands : Z
}.

(** [data]; [titleState] is not declared there, [toState] creates it. *)
Record Data := {
  state : STATES.t;
  titleState : option bool;
  showTitle : bool;
  cmd : string;
  commands : list string;
  displayScore : bool;
  gameDuration : Z;
  timer : Z;
  allowTyping : bool;
  score : Z;
  count : Count
}.

Definition data : Data :=
  {| state := STATES.loading; titleState := None; showTitle := false;
     cmd := EmptyString; commands := []; displayScore := false;
     gameDuration := 60 * 1000; timer := 0; allowTyping := false;
     score := 0;
     count := {| js := 0; bash := 0; html := 0; py := 0;
                 totalValidCharacters := 0; totalValidCommands := 0 |} |}.

Module Result.
(** The object built by [testCmd]. *)
Record t := {
  cmd : string;
  valid : bool;
  matchedCmd : option string;
  lang : list Lang.t
}.
End Result.

(** The argument of [onStateChange]. *)
Record Change := { from : STATES.t; to : STATES.t }.

(** A callback handed to [$nextTick]. *)
Inductive Tick :=
| tickOnResult (result : Result.t)   (* () => this.onResult(result) *)
| tickRefocus.                       (* () => { textarea.blur(); textarea.focus() } *)

(** The textarea [#cmd], as far as the handlers read it. *)
Record Textarea := { selectionStart : Z }.

Record World := {
  ctrl_down : bool;            (* let ctrl_down *)
  app : Data;                  (* the data of [app] *)
  textarea : Textarea;         (* this.$el.querySelector("#cmd") *)
  ticks : list Tick;           (* callbacks waiting for the next tick *)
  console : list Change        (* what [console.log] printed *)
}.

Definition world0 : World :=
  {| ctrl_down := false; app := data;
     textarea := {| selectionStart := 0 |}; ticks := []; console := [] |}.

(** *** Assignments *)

Definition set_ctrl_down (b : bool) (w : World) : World :=
  {| ctrl_down := b; app := app w; textarea := textarea w;
     ticks := ticks w; console := console w |}.

Definition set_app (d : Data) (w : World) : World :=
  {| ctrl_down := ctrl_down w; app := d; textarea := textarea w;
     ticks := ticks w; console := console w |}.

Definition set_textarea (t : Textarea) (w : World) : World :=
  {| ctrl_down := ctrl_down w; app := app w; textarea := t;
     ticks := ticks w; console := console w |}.

Definition set_ticks (q : list Tick) (w : World) : World :=
  {| ctrl_down := ctrl_down w; app := app w; textarea := textarea w;
     ticks := q; console := console w |}.

(** [this.$nextTick(f)] *)
Definition nextTick (f : Tick) (w : World) : World :=
  set_ticks (ticks w ++ [f]) w.

(** [console.log(...)] *)
Definition console_log (c : Change) (w : World) : World :=
  {| ctrl_down := ctrl_down w; app := app w; textarea := textarea w;
     ticks := ticks w; console := console w ++ [c] |}.

Definition set_state (s : STATES.t) (d : Data) : Data :=
  {| state := s; titleState := titleState d; showTitle := showTitle d;
     cmd := cmd d; commands := commands d; displayScore := displayScore d;
     gameDuration := gameDuration d; timer := timer d;
     allowTyping := allowTyping d; score := score d; count := count d |}.

Definition set_titleState (b : bool) (d : Data) : Data :=
  {| state := state d; titleState := Some b; showTitle := showTitle d;
     cmd := cmd d; commands := commands d; displayScore := displayScore d;
     gameDuration := gameDuration d; timer := timer d;
     allowTyping := allowTyping d; score := score d; count := count d |}.

Definition set_cmd (s : string) (d : Data) : Data :=
  {| state := state d; titleState := titleState d; showTitle := showTitle d;
     cmd := s; commands := commands d; displayScore := displayScore d;
     gameDuration := gameDuration d; timer := timer d;
     allowTyping := allowTyping d; score := score d; count := count d |}.

Definition set_timer (t : Z) (d : Data) : Data :=
  {| state := state d; titleState := titleState d; showTitle := showTitle d;
     cmd := cmd d; commands := commands d; displayScore := displayScore d;
     gameDuration := gameDuration d; timer := t;
     allowTyping := allowTyping d; score := score d; count := count d |}.

Definition set_allowTyping (b : bool) (d : Data) : Data :=
  {| state := state d; titleState := titleState d; showTitle := showTitle d;
     cmd := cmd d; commands := commands d; displayScore := displayScore d;
     gameDuration := gameDuration d; timer := timer d;
     allowTyping := b; score := score d; count := count d |}.

Definition set_score (n : Z) (d : Data) : Data :=
  {| state := state d; titleState := titleState d; showTitle := showTitle d;
     cmd := cmd d; commands := commands d; displayScore := displayScore d;
     gameDuration := gameDuration d; timer := timer d;
     allowTyping := allowTyping d; score := n; count := count d |}.

Definition set_count (c : Count) (d : Data) : Data :=
  {| state := state d; titleState := titleState d; showTitle := showTitle d;
     cmd := cmd d; commands := commands d; displayScore := displayScore d;
     gameDuration := gameDuration d; timer := timer d;
     allowTyping := allowTyping d; score := score d; count := c |}.

(** [count[lang]++] *)
Definition count_incr (c : Count) (lang : Lang.t) : Count :=
  match lang with
  | Lang.bash =>
      {| js := js c; bash := bash c + 1; html := html c; py := py c;
         totalValidCharacters := totalValidCharacters c;
         totalValidCommands := totalValidCommands c |}
  | Lang.js =>
      {| js := js c + 1; bash := bash c; html := html c; py := py c;
         totalValidCharacters := totalValidCharacters c;
         totalValidCommands := totalValidCommands c |}
  | Lang.py =>
      {| js := js c; bash := bash c; html := html c; py := py c + 1;
         totalValidCharacters := totalValidCharacters c;
         totalValidCommands := totalValidCommands c |}
  | Lang.html =>
      {| js := js c; bash := bash c; html := html c + 1; py := py c;
         totalValidCharacters := totalValidCharacters c;
         totalValidCommands := totalValidCommands c |}
  end.

(** [count.totalValidCommands++; count.totalValidCharacters += n] *)
Definition count_valid (n : Z) (c : Count) : Count :=
  {| js := js c; bash := bash c; html := html c; py := py c;
     totalValidCharacters := totalValidCharacters c + n;
     totalValidCommands := totalValidCommands c + 1 |}.

(* ================================================================== *)
(** ** The methods of the Vue instance *)
(* ================================================================== *)

(** The three methods that the file declares as replaceable hooks. *)
Record Hooks := {
  onKeyPress : KeyboardEvent -> World -> World;
  onResult : Result.t -> World -> World;
  onStateChange : Change -> World -> World
}.

(** [_.noop] *)
Definition noop {A} (_ : A) (w : World) : World := w.

(** The hooks as [app.js] defines them: [onKeyPress] and [onResult] are
    [_.noop], [onStateChange] only prints that no handler is registered. *)
Definition methods : Hooks :=
  {| onKeyPress := noop;
     onResult := noop;
     onStateChange := console_log |}.

Section App.

Variable keyCodes : KeyCodes.
Variable cmds_find : string -> Match.t.    (* cmds.find *)
Variable this : Hooks.

(** [Vue.config.keyCodes = { enter: keyCodes.enter }] *)
Definition Vue_config_keyCodes_enter : Z := enter keyCodes.

(** [toState(state)] *)
Definition toState (st : STATES.t) (w : World) : World :=
  let change := {| from := state (app w); to := st |} in
  let w := set_app (set_state st (app w)) w in
  let w := set_app (set_titleState (bool_decide (st = STATES.title)) (app w)) w in
  onStateChange this change w.

(** [testCmd(ev)].  [JS.split] never returns an empty array, so [_.last]
    always finds a segment (lemma [last_split]). *)
Definition testCmd (ev : KeyboardEvent) (w : World) : Result.t * World :=
  let cmd := JS.trim (default EmptyString
                        (Lodash.last (JS.split JS.LF (cmd (app w))))) in
  let found := cmds_find cmd in
  let matchedCmd := Match.cmd found in
  let lang := Match.lang found in
  let result := {| Result.cmd := cmd; Result.valid := JS.truthy matchedCmd;
                   Result.matchedCmd := matchedCmd; Result.lang := lang |} in
  (result, nextTick (tickOnResult result) w).

(** The scoring of one result, the body of the Enter branch of
    [handleKeypress] after [testCmd] has returned. *)
Definition tally (result : Result.t) (d : Data) : Data :=
  (* result.lang.forEach(lang => app.count[lang]++) *)
  let d := set_count (fold_left count_incr (Result.lang result) (count d)) d in
  if Result.valid result then
    let n := JS.length (Result.cmd result) in
    let d := set_score (score d + (10 + n) * 100) d in
    set_count (count_valid n (count d)) d
  else d.

(** [handleKeypress(ev)]: the world after the call, and the event with its
    [defaultPrevented] flag. *)
Definition handleKeypress (ev : KeyboardEvent) (w : World)
    : World * KeyboardEvent :=
  let w := onKeyPress this ev w in
  if negb (allowTyping (app w)) then (w, preventDefault ev)
  else
    let leftChar := JS.index (cmd (app w)) (selectionStart (textarea w) - 1) in
    if keyCode ev =? Vue_config_keyCodes_enter then
      let ev := preventDefault ev in
      let '(result, w) := testCmd ev w in
      let w := set_app (tally result (app w)) w in
      let w := if negb (JS.length (Result.cmd result) =? 0)
               then nextTick tickRefocus w else w in
      (w, ev)
    else
      let '(ok, held) := validKeycode keyCodes ev leftChar (ctrl_down w) in
      let w := set_ctrl_down held w in
      if negb ok then (w, preventDefault ev) else (w, ev).

(** [handleKeyup(ev)] *)
Definition handleKeyup (ev : KeyboardEvent) (w : World) : World :=
  if keyCode ev =? ctrl keyCodes then set_ctrl_down false w else w.

(** One callback of the [$nextTick] queue. *)
Definition runTick (w : World) (f : Tick) : World :=
  match f with
  | tickOnResult result => onResult this result w
  | tickRefocus => w
  end.

(** *** Sessions

    What reaches the view-model during a session: the two key events, calls
    of [toState], the flush of the [$nextTick] queue, and the two writes
    that come from outside this file, the textarea's two-way binding
    assigning [cmd] (with the caret moving) and the per-phase code
    assigning [allowTyping]. *)
Inductive Input :=
| Keydown (kc : Z)
| Keyup (kc : Z)
| Transition (st : STATES.t)
| Flush
| Typed (text : string) (caret : Z)
| Typing (on : bool).

Definition step (w : World) (i : Input) : World :=
  match i with
  | Keydown kc => fst (handleKeypress (key_event kc) w)
  | Keyup kc => handleKeyup (key_event kc) w
  | Transition st => toState st w
  | Flush => fold_left runTick (ticks w) (set_ticks [] w)
  | Typed text caret =>
      set_textarea {| selectionStart := caret |}
        (set_app (set_cmd text (app w)) w)
  | Typing on => set_app (set_allowTyping on (app w)) w
  end.

Definition run (w : World) (inputs : list Input) : World :=
  fold_left step inputs w.

End App.


(* ================================================================== *)
(** ** pickGoldenCommands *)
(* ================================================================== *)

Module Golden.
(** The object [pickGoldenCommands] returns. *)
Record t := {
  bash : list string;
  js : list string;
  py : list string;
  html : list string
}.

Definition get (lang : Lang.t) (r : t) : list string :=
  match lang with
  | Lang.bash => bash r
  | Lang.js => js r
  | Lang.py => py r
  | Lang.html => html r
  end.
End Golden.

Section GoldenCommands.

Variable cmdsByLang : Dictionary.
Variable config : Config.

(** [filterCmds(cmds)] *)
Definition filterCmds (cmds : list string) : list string :=
  let filteredCmds :=
    List.filter (fun cmd => JS.length cmd <=? GOLDEN_CMDS_MAX_LENGTH config) cmds in
  let filteredCmds :=
    List.filter (fun cmd => negb (JS.startsWith "_" cmd)) filteredCmds in
  let filteredCmds :=
    List.filter (fun cmd => negb (JS.endsWith ")" cmd)) filteredCmds in
  filteredCmds.

(** [pickGoldenCommands()], with the random source passed along the four
    draws in the order the object literal evaluates them. *)
Definition pickGoldenCommands (g : Lodash.Random) : Golden.t * Lodash.Random :=
  let bash := filterCmds (cmdsByLang Lang.bash) in
  let js := filterCmds (cmdsByLang Lang.js) in
  let py := filterCmds (cmdsByLang Lang.py) in
  let html := filterCmds (cmdsByLang Lang.html) in
  let '(sbash, g) := Lodash.sampleSize bash (GOLDEN_CMDS_PER_LANG config) g in
  let '(sjs, g) := Lodash.sampleSize js (GOLDEN_CMDS_PER_LANG config) g in
  let '(spy, g) := Lodash.sampleSize py (GOLDEN_CMDS_PER_LANG config) g in
  let '(shtml, g) := Lodash.sampleSize html (GOLDEN_CMDS_PER_LANG config) g in
  ({| Golden.bash := sbash; Golden.js := sjs;
      Golden.py := spy; Golden.html := shtml |}, g).

End GoldenCommands.

(* ================================================================== *)
(** ** The phase handler described by the specification *)
(* ================================================================== *)

(** The zeroed counters of [data]. *)
Definition count0 : Count := count data.

(** Modelled from the spec: the handler that the game registers as
    [onStateChange]; it is assigned from outside [app.js] and is not among
    the sources.  On [title -> play] it enables typing and resets score,
    counters and timer; on [play -> end] it disables typing and leaves
    score and counters as they are; no other effect is described. *)
Definition onStateChange_spec (change : Change) (w : World) : World :=
  match from change, to change with
  | STATES.title, STATES.play =>
      set_app (set_timer (timer data)
                (set_count count0
                  (set_score (score data)
                    (set_allowTyping true (app w))))) w
  | STATES.play, STATES.end' =>
      set_app (set_allowTyping false (app w)) w
  | _, _ => w
  end.

Definition registered : Hooks :=
  {| onKeyPress := noop;
     onResult := noop;
     onStateChange := onStateChange_spec |}.

(* ================================================================== *)
(** ** Vocabulary of the statements *)
(* ================================================================== *)

(** [kc] lies in the closed range [r]. *)
Definition inClosed (r : Range) (kc : Z) : Prop := start r <= kc <= end_ r.

(** The codes the filter is meant to let through, given the character left
    of the cursor. *)
Definition accepted (kC : KeyCodes) (kc : Z) (leftChar : option ascii) : Prop :=
  inClosed (nums kC) kc \/ inClosed (alpha kC) kc \/ inClosed (punct kC) kc
  \/ kc = enter kC \/ kc = right_arrow kC
  \/ ((kc = left_arrow kC \/ kc = backspace kC) /\ leftChar <> Some JS.LF).

(** What is assumed of the key-code table: the three ranges are given with
    [start <= end], and the control code is none of the codes that the
    filter lets through. *)
Definition wf_keyCodes (kC : KeyCodes) : Prop :=
  start (nums kC) <= end_ (nums kC)
  /\ start (alpha kC) <= end_ (alpha kC)
  /\ start (punct kC) <= end_ (punct kC)
  /\ ~ inClosed (nums kC) (ctrl kC)
  /\ ~ inClosed (alpha kC) (ctrl kC)
  /\ ~ inClosed (punct kC) (ctrl kC)
  /\ ctrl kC <> enter kC /\ ctrl kC <> right_arrow kC
  /\ ctrl kC <> left_arrow kC /\ ctrl kC <> backspace kC.

(** The string has no line feed. *)
Definition no_newline (s : string) : Prop :=
  ~ In JS.LF (list_ascii_of_string s).

(** The string is made of white space only. *)
Definition all_space (s : string) : Prop :=
  Forall (fun c => JS.isWhiteSpace c = true) (list_ascii_of_string s).

(** The string neither starts nor ends with white space. *)
Definition stripped (s : string) : Prop :=
  (forall c r, s = String c r -> JS.isWhiteSpace c = false)
  /\ (forall r c, s = (r ++ String c EmptyString)%string ->
                  JS.isWhiteSpace c = false).

(** [seg] is what follows the last line feed of [buf] (all of [buf] when
    it has none). *)
Definition trailing_line (buf seg : string) : Prop :=
  exists pre, buf = (pre ++ seg)%string
    /\ no_newline seg
    /\ (pre = EmptyString
        \/ exists p, pre = (p ++ String JS.LF EmptyString)%string).

(** [line] is [seg] without its leading and trailing white space. *)
Definition strip_of (seg line : string) : Prop :=
  exists l r, seg = (l ++ line ++ r)%string
    /\ all_space l /\ all_space r /\ stripped line.

(** [line] is, character for character, an entry of the dictionary. *)
Definition in_dictionary (dict : Dictionary) (line : string) : Prop :=
  exists l, In line (dict l).

(** The phase is [play]. *)
Definition in_play (w : World) : bool :=
  bool_decide (state (app w) = STATES.play).

(** Typing is enabled. *)
Definition typing_on (w : World) : bool := allowTyping (app w).

Section Counting.

Variable keyCodes : KeyCodes.
Variable cmds_find : string -> Match.t.
Variable this : Hooks.

(** The number of Enter key-downs among [inputs] that are processed while
    [cond] holds of the world they arrive in, the session starting in
    [w]. *)
Fixpoint enters_while (cond : World -> bool) (w : World)
    (inputs : list Input) : Z :=
  match inputs with
  | [] => 0
  | i :: rest =>
      (match i with
       | Keydown kc =>
           if (kc =? enter keyCodes) && cond w then 1 else 0
       | _ => 0
       end)
      + enters_while cond (step keyCodes cmds_find this w i) rest
  end.

End Counting.

(** The score and the four per-language counts of [d'] are at least those
    of [d]. *)
Definition no_decrease (d d' : Data) : Prop :=
  score d <= score d'
  /\ js (count d) <= js (count d')
  /\ bash (count d) <= bash (count d')
  /\ html (count d) <= html (count d')
  /\ py (count d) <= py (count d').

(** The three phase changes of the specification's diagram. *)
Definition permitted (a b : STATES.t) : Prop :=
  (a = STATES.loading /\ b = STATES.title)
  \/ (a = STATES.title /\ b = STATES.play)
  \/ (a = STATES.play /\ b = STATES.end').

(** A dictionary with one bash command, for the examples. *)
Definition dict_ls : Dictionary :=
  fun l => match l with Lang.bash => ["ls"%string] | _ => [] end.

(** The specification's reading of [toState]: whatever phase is asked for,
    the change made is one of the diagram. *)
Definition follows_diagram (this : Hooks) : Prop :=
  forall (w : World) (st : STATES.t),
    permitted (state (app w)) (state (app (toState this st w))).

(** The command starts with an underscore. *)
Definition starts_with_underscore (cmd : string) : Prop :=
  exists r, cmd = String "_"%char r.

(** The command ends with a closing parenthesis. *)
Definition ends_with_paren (cmd : string) : Prop :=
  exists r, cmd = (r ++ ")")%string.

(* ================================================================== *)
(** ** Further vocabulary *)
(* ================================================================== *)

(** [count[lang]] *)
Definition count_of (lang : Lang.t) (c : Count) : Z :=
  match lang with
  | Lang.bash => bash c
  | Lang.js => js c
  | Lang.py => py c
  | Lang.html => html c
  end.

(** What the score is worth beyond the commands and characters counted:
    a valid command of [n] characters adds [(10 + n) * 100] to the score,
    one to [totalValidCommands] and [n] to [totalValidCharacters]. *)
Definition score_balance (d : Data) : Z :=
  score d - 1000 * totalValidCommands (count d)
          - 100 * totalValidCharacters (count d).

(** The input is a key event or a flush of the callback queue. *)
Definition key_input (i : Input) : bool :=
  match i with
  | Keydown _ | Keyup _ | Flush => true
  | Transition _ | Typed _ _ | Typing _ => false
  end.

(** The input is not the key-up of the control key. *)
Definition not_ctrl_keyup (kC : KeyCodes) (i : Input) : bool :=
  match i with
  | Keyup kc => negb (kc =? ctrl kC)
  | _ => true
  end.

(** The phase most recently asked for among [inputs], if any. *)
Fixpoint last_transition (inputs : list Input) : option STATES.t :=
  match inputs with
  | [] => None
  | i :: rest =>
      match last_transition rest with
      | Some st => Some st
      | None => match i with
                | Transition st => Some st
                | _ => None
                end
      end
  end.

(** Each printed change starts in the phase the previous one ended in. *)
Fixpoint chained (log : list Change) : Prop :=
  match log with
  | c1 :: (c2 :: _) as rest => to c1 = from c2 /\ chained rest
  | _ => True
  end.

(** The console shows a path of phase changes that ends in the current
    phase. *)
Definition log_follows_state (w : World) : Prop :=
  chained (console w)
  /\ forall c, Lodash.last (console w) = Some c -> to c = state (app w).

(** [titleState], once it exists, tells whether the phase is [title]. *)
Definition titleState_agrees (d : Data) : Prop :=
  titleState d = None
  \/ titleState d = Some (bool_decide (state d = STATES.title)).

(** The code is left-arrow or backspace, and is let through by none of the
    other tests of the filter. *)
Definition caret_key (kC : KeyCodes) (kc : Z) : Prop :=
  (kc = left_arrow kC \/ kc = backspace kC)
  /\ kc <> enter kC /\ kc <> ctrl kC /\ kc <> right_arrow kC
  /\ Lodash.inRange kc (start (nums kC)) (end_ (nums kC) + 1) = false
  /\ Lodash.inRange kc (start (alpha kC)) (end_ (alpha kC) + 1) = false
  /\ Lodash.inRange kc (start (punct kC)) (end_ (punct kC) + 1) = false.

(* ================================================================== *)
(** ** The keystroke filter *)
(* ================================================================== *)

Lemma domKeyCodes_wf : wf_keyCodes domKeyCodes.
Proof. unfold wf_keyCodes, inClosed; simpl; lia. Qed.

Lemma inRange_closed (r : Range) (kc : Z) :
  start r <= end_ r ->
  Lodash.inRange kc (start r) (end_ r + 1) = true <-> inClosed r kc.
Proof.
  intros Hr. unfold Lodash.inRange, inClosed.
  rewrite andb_true_iff, Z.leb_le, Z.ltb_lt. lia.
Qed.

(** The verdict of the filter when the flag is down and the key is not the
    control key, for any table with well-formed ranges. *)
Lemma validKeycode_free (kC : KeyCodes) (ev : KeyboardEvent)
    (leftChar : option ascii) :
  start (nums kC) <= end_ (nums kC) ->
  start (alpha kC) <= end_ (alpha kC) ->
  start (punct kC) <= end_ (punct kC) ->
  keyCode ev <> ctrl kC ->
  fst (validKeycode kC ev leftChar false) = true
  <-> accepted kC (keyCode ev) leftChar.
Proof.
  intros Hn Ha Hp Hc. unfold validKeycode, accepted.
  apply Z.eqb_neq in Hc. rewrite Hc. cbn [fst existsb].
  rewrite !orb_true_iff, andb_true_iff, negb_true_iff, bool_decide_eq_false.
  rewrite !inRange_closed by assumption.
  rewrite ?orb_true_iff, !Z.eqb_eq. intuition congruence.
Qed.

(** The key-down of the control key is itself rejected, and raises the
    flag. *)
Lemma validKeycode_ctrl (kC : KeyCodes) (ev : KeyboardEvent)
    (leftChar : option ascii) (held : bool) :
  keyCode ev = ctrl kC ->
  validKeycode kC ev leftChar held = (false, true).
Proof.
  intros E. unfold validKeycode. rewrite E, Z.eqb_refl. reflexivity.
Qed.

(** C1. While the control flag is not held, [validKeycode] accepts a key
    event exactly when its code lies in one of the three closed ranges
    (digits, letters, punctuation), or is enter or right-arrow, or is
    left-arrow or backspace with a character other than a newline left of
    the cursor; every other code is rejected. *)
Theorem validKeycode_accepts_exactly (kC : KeyCodes) (ev : KeyboardEvent)
    (leftChar : option ascii) :
  wf_keyCodes kC ->
  (fst (validKeycode kC ev leftChar false) = true
   <-> accepted kC (keyCode ev) leftChar)
  /\ (~ accepted kC (keyCode ev) leftChar ->
      fst (validKeycode kC ev leftChar false) = false).
Proof.
  intros (Hn & Ha & Hp & Cn & Ca & Cp & Ce & Cr & Cl & Cb).
  assert (Hiff : fst (validKeycode kC ev leftChar false) = true
                 <-> accepted kC (keyCode ev) leftChar).
  { destruct (Z.eq_dec (keyCode ev) (ctrl kC)) as [E | N].
    - rewrite (validKeycode_ctrl kC ev leftChar false E). cbn [fst].
      split; [discriminate |].
      unfold accepted. rewrite E. intuition congruence.
    - now apply validKeycode_free. }
  split; [exact Hiff |].
  intros Hno. destruct (fst (validKeycode kC ev leftChar false)) eqn:E;
    [| reflexivity].
  exfalso. apply Hno, Hiff. reflexivity.
Qed.

Lemma validKeycode_accepts_exactly_witness :
  wf_keyCodes domKeyCodes
  /\ (fst (validKeycode domKeyCodes (key_event 8) (Some "a"%char) false) = true
      <-> accepted domKeyCodes 8 (Some "a"%char))
  /\ (~ accepted domKeyCodes 8 (Some JS.LF) ->
      fst (validKeycode domKeyCodes (key_event 8) (Some JS.LF) false) = false).
Proof.
  split; [unfold wf_keyCodes, inClosed; simpl; lia |].
  split.
  - apply (validKeycode_accepts_exactly domKeyCodes (key_event 8) (Some "a"%char)).
    unfold wf_keyCodes, inClosed; simpl; lia.
  - apply (validKeycode_accepts_exactly domKeyCodes (key_event 8) (Some JS.LF)).
    unfold wf_keyCodes, inClosed; simpl; lia.
Defined.

(** Backspace is refused right after a newline and accepted after a
    letter; a function key is refused. *)
Example backspace_after_newline :
  fst (validKeycode domKeyCodes (key_event 8) (Some JS.LF) false) = false.
Proof. reflexivity. Qed.

Example backspace_after_letter :
  fst (validKeycode domKeyCodes (key_event 8) (Some "a"%char) false) = true.
Proof. reflexivity. Qed.

Example function_key_refused :
  fst (validKeycode domKeyCodes (key_event 112) None false) = false.
Proof. reflexivity. Qed.

(** C2. While the control-held flag is set, [validKeycode] returns false
    for every key code, also for codes it would otherwise accept, and the
    flag stays set. *)
Theorem validKeycode_ctrl_held (kC : KeyCodes) (ev : KeyboardEvent)
    (leftChar : option ascii) :
  validKeycode kC ev leftChar true = (false, true).
Proof.
  unfold validKeycode. now destruct (keyCode ev =? ctrl kC).
Qed.

Example letter_refused_under_ctrl :
  accepted domKeyCodes 65 None
  /\ fst (validKeycode domKeyCodes (key_event 65) None true) = false.
Proof. split; [unfold accepted, inClosed; simpl; lia | reflexivity]. Qed.

(* ================================================================== *)
(** ** The trailing line and the command test *)
(* ================================================================== *)

Section Strings.

Local Open Scope string_scope.

Lemma append_nil_l (s : string) : "" ++ s = s.
Proof. reflexivity. Qed.

Lemma append_cons (c : ascii) (s t : string) :
  String c s ++ t = String c (s ++ t).
Proof. reflexivity. Qed.

Lemma append_nil_r (s : string) : s ++ "" = s.
Proof.
  induction s as [| c s IH]; [reflexivity |].
  now rewrite append_cons, IH.
Qed.

Lemma append_assoc (a b c : string) : (a ++ b) ++ c = a ++ (b ++ c).
Proof.
  induction a as [| x a IH]; [reflexivity |].
  now rewrite !append_cons, IH.
Qed.

Lemma split_nonempty (sep : ascii) (s : string) : JS.split sep s <> [].
Proof.
  destruct s as [| c s]; simpl; [discriminate |].
  destruct (Ascii.eqb c sep); [discriminate |].
  destruct (JS.split sep s); discriminate.
Qed.

(** Joining the pieces with the separator gives the string back. *)
Lemma concat_split (sep : ascii) (s : string) :
  String.concat (String sep "") (JS.split sep s) = s.
Proof.
  induction s as [| c s IH]; [reflexivity |].
  simpl. destruct (Ascii.eqb_spec c sep) as [-> | N].
  - pose proof (split_nonempty sep s) as Hne.
    destruct (JS.split sep s) as [| h t]; [contradiction |].
    change (String.concat (String sep "") ("" :: h :: t))
      with (String sep (String.concat (String sep "") (h :: t))).
    now rewrite IH.
  - destruct (JS.split sep s) as [| h t] eqn:E.
    + now apply split_nonempty in E.
    + rewrite <- IH. now destruct t.
Qed.

(** No piece contains the separator. *)
Lemma split_free (sep : ascii) (s : string) :
  Forall (fun x => ~ In sep (list_ascii_of_string x)) (JS.split sep s).
Proof.
  induction s as [| c s IH]; simpl.
  - constructor; [simpl; tauto | constructor].
  - destruct (Ascii.eqb_spec c sep) as [-> | N].
    + constructor; [simpl; tauto | exact IH].
    + destruct (JS.split sep s) as [| h t].
      * constructor; [simpl; intuition congruence | constructor].
      * inversion IH as [| ? ? Hh Ht]; subst.
        constructor; [simpl; intuition congruence | exact Ht].
Qed.

(** The last piece of a non-empty array ends the joined string, and what
    precedes it is empty or ends with the separator. *)
Lemma last_concat (sep : string) (l : list string) :
  l <> [] ->
  exists pre seg,
    Lodash.last l = Some seg /\ In seg l
    /\ String.concat sep l = pre ++ seg
    /\ (pre = "" \/ exists p, pre = p ++ sep).
Proof.
  induction l as [| x l IH]; [congruence |]. intros _.
  destruct l as [| y t].
  - exists "", x. cbn. auto.
  - destruct IH as (pre & seg & Hl & Hin & Hc & Hp); [discriminate |].
    exists (x ++ sep ++ pre), seg. repeat split.
    + exact Hl.
    + now right.
    + change (String.concat sep (x :: y :: t))
        with (x ++ sep ++ String.concat sep (y :: t)).
      now rewrite Hc, !append_assoc.
    + right. destruct Hp as [-> | (p & ->)].
      * exists x. now rewrite append_nil_r.
      * exists (x ++ sep ++ p). now rewrite !append_assoc.
Qed.

(** [_.last] of a split is the trailing line of the buffer. *)
Lemma last_split (buf : string) :
  exists seg, Lodash.last (JS.split JS.LF buf) = Some seg
              /\ trailing_line buf seg.
Proof.
  destruct (last_concat (String JS.LF "") (JS.split JS.LF buf)
              (split_nonempty _ _)) as (pre & seg & Hl & Hin & Hc & Hp).
  exists seg. split; [exact Hl |]. exists pre. repeat split.
  - now rewrite <- Hc, concat_split.
  - pose proof (split_free JS.LF buf) as Hf.
    rewrite List.Forall_forall in Hf. exact (Hf seg Hin).
  - exact Hp.
Qed.

Lemma trimStart_spec (s : string) :
  exists l, s = l ++ JS.trimStart s /\ all_space l
    /\ (forall c r, JS.trimStart s = String c r -> JS.isWhiteSpace c = false).
Proof.
  induction s as [| c s (l & Hs & Hl & Hc)].
  - exists "". repeat split; [constructor | discriminate].
  - simpl. destruct (JS.isWhiteSpace c) eqn:E.
    + exists (String c l). repeat split.
      * now rewrite append_cons, <- Hs.
      * constructor; assumption.
      * exact Hc.
    + exists "". repeat split; [constructor |].
      intros c' r [= <- _]. exact E.
Qed.

Lemma trimEnd_spec (t : string) :
  exists r, t = JS.trimEnd t ++ r /\ all_space r
    /\ (forall x c, JS.trimEnd t = x ++ String c "" ->
                    JS.isWhiteSpace c = false).
Proof.
  induction t as [| c t (r & Ht & Hr & Hc)].
  - exists "". repeat split; [constructor |].
    intros [| ? ?] c; discriminate.
  - simpl. destruct (JS.trimEnd t) as [| a u] eqn:E.
    + rewrite append_nil_l in Ht. subst r. destruct (JS.isWhiteSpace c) eqn:W.
      * exists (String c t). repeat split.
        -- constructor; assumption.
        -- intros [| ? ?] c'; discriminate.
      * exists t. repeat split; [assumption |].
        intros [| a x] c'; rewrite ?append_cons, ?append_nil_l.
        -- now intros [= <-].
        -- intros [= _ H]. destruct x; discriminate.
    + exists r. repeat split.
      * now rewrite append_cons, <- Ht.
      * assumption.
      * intros [| b x] c'; rewrite ?append_cons, ?append_nil_l.
        -- discriminate.
        -- intros [= _ H]. exact (Hc x c' H).
Qed.

(** [trim] removes white space from both ends and nothing else. *)
Lemma trim_spec (s : string) : strip_of s (JS.trim s).
Proof.
  destruct (trimStart_spec s) as (l & Hs & Hl & Hc).
  destruct (trimEnd_spec (JS.trimStart s)) as (r & Ht & Hr & He).
  exists l, r. unfold JS.trim. repeat split.
  - now rewrite <- Ht.
  - exact Hl.
  - exact Hr.
  - intros c x E. rewrite E, append_cons in Ht. exact (Hc c _ Ht).
  - exact He.
Qed.

End Strings.

Section TrailingLine.

Local Open Scope string_scope.

Lemma split_whole (sep : ascii) (s : string) :
  ~ In sep (list_ascii_of_string s) -> JS.split sep s = [s].
Proof.
  induction s as [| c s IH]; [reflexivity |].
  simpl. intros H. destruct (Ascii.eqb_spec c sep) as [-> | N].
  - tauto.
  - rewrite IH; [reflexivity | tauto].
Qed.

(** A string with a separator splits in at least two pieces. *)
Lemma split_two (sep : ascii) (p s : string) :
  exists h k t, JS.split sep (p ++ String sep s) = h :: k :: t.
Proof.
  induction p as [| c p (h & k & t & IH)].
  - rewrite append_nil_l. simpl. rewrite Ascii.eqb_refl.
    destruct (JS.split sep s) as [| k t] eqn:E;
      [now apply split_nonempty in E | eauto].
  - rewrite append_cons. simpl. rewrite IH.
    destruct (Ascii.eqb c sep); eauto.
Qed.

Lemma last_split_after (sep : ascii) (p s : string) :
  Lodash.last (JS.split sep (p ++ String sep s))
  = Lodash.last (JS.split sep s).
Proof.
  induction p as [| c p IH].
  - rewrite append_nil_l. simpl. rewrite Ascii.eqb_refl.
    destruct (JS.split sep s) eqn:E;
      [now apply split_nonempty in E | reflexivity].
  - rewrite append_cons. simpl.
    destruct (split_two sep p s) as (h & k & t & E).
    rewrite <- IH, E. now destruct (Ascii.eqb c sep).
Qed.

(** The trailing line is the one [_.last] of the split finds. *)
Lemma trailing_line_last (buf seg : string) :
  trailing_line buf seg ->
  Lodash.last (JS.split JS.LF buf) = Some seg.
Proof.
  intros (pre & -> & Hn & [-> | (p & ->)]).
  - rewrite append_nil_l, split_whole by exact Hn. reflexivity.
  - rewrite append_assoc, append_cons, append_nil_l, last_split_after.
    rewrite split_whole by exact Hn. reflexivity.
Qed.

Lemma trimEnd_space (r : string) : all_space r -> JS.trimEnd r = "".
Proof.
  induction r as [| c r IH]; [reflexivity |].
  intros H. inversion H as [| ? ? Hc Hr]; subst.
  simpl. now rewrite IH, Hc.
Qed.

Lemma trimStart_space (l s : string) :
  all_space l -> JS.trimStart (l ++ s) = JS.trimStart s.
Proof.
  induction l as [| c l IH]; [reflexivity |].
  intros H. inversion H as [| ? ? Hc Hl]; subst.
  rewrite append_cons. simpl. now rewrite Hc, IH.
Qed.

Lemma trimEnd_app_space (t r : string) :
  all_space r -> JS.trimEnd (t ++ r) = JS.trimEnd t.
Proof.
  intros Hr. induction t as [| c t IH].
  - rewrite append_nil_l. now apply trimEnd_space.
  - rewrite append_cons. simpl. now rewrite IH.
Qed.

(** A string that does not end with white space is not shortened. *)
Lemma trimEnd_id (t : string) :
  (forall x c, t = x ++ String c "" -> JS.isWhiteSpace c = false) ->
  JS.trimEnd t = t.
Proof.
  induction t as [| c t IH]; [reflexivity |].
  intros H. simpl. rewrite IH.
  - destruct t; [| reflexivity].
    now rewrite (H "" c eq_refl).
  - intros x c' ->. apply (H (String c x) c'). reflexivity.
Qed.

(** The stripped line is the one [trim] computes. *)
Lemma strip_of_trim (seg line : string) :
  strip_of seg line -> JS.trim seg = line.
Proof.
  intros (l & r & -> & Hl & Hr & Hs & He). unfold JS.trim.
  rewrite trimStart_space by exact Hl.
  destruct line as [| c x].
  - rewrite append_nil_l.
    assert (E : JS.trimStart r = "").
    { clear - Hr. induction r as [| c r IH]; [reflexivity |].
      inversion Hr as [| ? ? Hc Hr']; subst. simpl. now rewrite Hc, IH. }
    now rewrite E.
  - rewrite append_cons. simpl. rewrite (Hs c x eq_refl).
    rewrite <- append_cons, trimEnd_app_space by exact Hr.
    now apply trimEnd_id.
Qed.

End TrailingLine.

(** [cmds.includes(line)] holds when [line] is an element of [cmds]. *)
Lemma includes_In (line : string) (cmds : list string) :
  includes line cmds = true <-> In line cmds.
Proof.
  unfold includes. rewrite existsb_exists. split.
  - intros (x & Hx & E). apply String.eqb_eq in E. now subst.
  - intros H. exists line. split; [exact H | apply String.eqb_refl].
Qed.

Lemma find_lang (dict : Dictionary) (line : string) (l : Lang.t) :
  In l (Match.lang (find dict line))
  <-> line <> EmptyString /\ In line (dict l).
Proof.
  unfold find. destruct (String.eqb_spec line EmptyString) as [-> | N].
  - simpl. tauto.
  - cbn [Match.lang]. rewrite filter_In, includes_In.
    assert (In l Lang.all) by (destruct l; simpl; tauto). tauto.
Qed.

Lemma find_cmd (dict : Dictionary) (line : string) :
  JS.truthy (Match.cmd (find dict line)) = true
  <-> line <> EmptyString /\ in_dictionary dict line.
Proof.
  destruct (String.eqb_spec line EmptyString) as [E | N].
  - subst line. cbn. split; [discriminate | tauto].
  - assert (HL : forall l, In l (Match.lang (find dict line))
                           <-> In line (dict l)).
    { intros l. rewrite find_lang. tauto. }
    unfold find in *. apply String.eqb_neq in N. rewrite N in *.
    cbn [Match.lang Match.cmd] in *. apply String.eqb_neq in N.
    unfold in_dictionary.
    destruct (List.filter _ Lang.all) as [| l0 ls].
    + cbn. split; [discriminate |].
      intros (_ & l & Hl). destruct (proj2 (HL l) Hl).
    + cbn [JS.truthy]. apply String.eqb_neq in N. rewrite N.
      apply String.eqb_neq in N.
      split; [| reflexivity]. intros _. split; [exact N |].
      exists l0. apply HL. now left.
Qed.

(** C3. On Enter, the line that [testCmd] hands to the command matcher is
    exactly the part of the typed buffer after its last newline, with
    leading and trailing white space removed, and the result reports what
    the matcher says of that line.  With the matcher of the specification
    the result is valid only when the line is, character for character, an
    entry of the dictionary, and its languages are those whose list holds
    that very string: no prefix, substring or approximate match counts. *)
Theorem testCmd_exact_match (dict : Dictionary) (ev : KeyboardEvent)
    (w : World) :
  (forall matcher : string -> Match.t,
      let result := fst (testCmd matcher ev w) in
      (forall line,
          Result.cmd result = line
          <-> exists seg,
                trailing_line (cmd (app w)) seg /\ strip_of seg line)
      /\ Result.matchedCmd result = Match.cmd (matcher (Result.cmd result))
      /\ Result.lang result = Match.lang (matcher (Result.cmd result))
      /\ Result.valid result
         = JS.truthy (Match.cmd (matcher (Result.cmd result))))
  /\ (let result := fst (testCmd (find dict) ev w) in
      (Result.valid result = true
       <-> Result.cmd result <> EmptyString
           /\ in_dictionary dict (Result.cmd result))
      /\ (forall l, In l (Result.lang result)
                    <-> Result.cmd result <> EmptyString
                        /\ In (Result.cmd result) (dict l))).
Proof.
  destruct (last_split (cmd (app w))) as (seg & Hl & Ht).
  split.
  - intros matcher.
    cbn [testCmd fst Result.cmd Result.valid Result.matchedCmd Result.lang].
    rewrite Hl. cbn [default].
    split; [| repeat split].
    intros line. split.
    + intros <-. exists seg. split; [exact Ht | apply trim_spec].
    + intros (seg' & Ht' & Hs). apply trailing_line_last in Ht'.
      rewrite Hl in Ht'. injection Ht' as ->. now apply strip_of_trim.
  - cbn [testCmd fst Result.cmd Result.valid Result.matchedCmd Result.lang].
    split; [apply find_cmd | intros l; apply find_lang].
Qed.

(** A buffer whose trailing line is [console.log] does not match a
    dictionary that only knows [log]; the exact entry does. *)
Example console_log_no_match :
  let dict : Dictionary :=
    fun l => match l with Lang.js => ["log"%string] | _ => [] end in
  let w := set_app (set_cmd "ls
console.log  " data) world0 in
  Result.cmd (fst (testCmd (find dict) (key_event 13) w)) = "console.log"%string
  /\ Result.valid (fst (testCmd (find dict) (key_event 13) w)) = false
  /\ Result.lang (fst (testCmd (find dict) (key_event 13) w)) = []
  /\ Result.valid
       (fst (testCmd (find dict) (key_event 13)
               (set_app (set_cmd "log" data) world0))) = true.
Proof. repeat split; reflexivity. Qed.

(* ================================================================== *)
(** ** Key handling and scoring *)
(* ================================================================== *)

Section Session.

Variable keyCodes : KeyCodes.
Variable cmds_find : string -> Match.t.


Lemma length_nonneg (s : string) : 0 <= JS.length s.
Proof. unfold JS.length. lia. Qed.

(** Bumping the language counters leaves the two totals alone and lowers
    nothing. *)
Lemma fold_count_incr (langs : list Lang.t) (c : Count) :
  let c' := fold_left count_incr langs c in
  js c <= js c' /\ bash c <= bash c' /\ html c <= html c' /\ py c <= py c'
  /\ totalValidCommands c' = totalValidCommands c
  /\ totalValidCharacters c' = totalValidCharacters c.
Proof.
  revert c. induction langs as [| l langs IH]; intros c; cbn [fold_left].
  - cbv zeta. lia.
  - specialize (IH (count_incr c l)). cbv zeta in *.
    destruct l; cbn [count_incr js bash html py totalValidCommands
                     totalValidCharacters] in *; lia.
Qed.

(** One result raises [totalValidCommands] by one when it is valid and
    not at all otherwise; nothing goes down. *)
Lemma tally_spec (result : Result.t) (d : Data) :
  no_decrease d (tally result d)
  /\ totalValidCommands (count (tally result d))
     = totalValidCommands (count d) + (if Result.valid result then 1 else 0)
  /\ score (tally result d)
     = score d + (if Result.valid result
                  then (10 + JS.length (Result.cmd result)) * 100 else 0)
  /\ allowTyping (tally result d) = allowTyping d
  /\ state (tally result d) = state d.
Proof.
  pose proof (fold_count_incr (Result.lang result) (count d)) as H.
  pose proof (length_nonneg (Result.cmd result)) as Hn.
  unfold tally, no_decrease. simpl in H.
  destruct (Result.valid result); simpl; repeat split; (reflexivity || lia).
Qed.

(** The Enter branch of [handleKeypress], spelled out. *)
Lemma handleKeypress_enter (ev : KeyboardEvent) (w : World) :
  allowTyping (app w) = true ->
  keyCode ev = enter keyCodes ->
  let result := fst (testCmd cmds_find ev w) in
  handleKeypress keyCodes cmds_find methods ev w
  = (let w1 := set_app (tally result (app w))
                 (nextTick (tickOnResult result) w) in
     if negb (JS.length (Result.cmd result) =? 0)
     then nextTick tickRefocus w1 else w1,
     preventDefault ev).
Proof.
  intros Ha He. unfold handleKeypress, Vue_config_keyCodes_enter.
  cbn [methods onKeyPress]. unfold noop.
  rewrite Ha, He, Z.eqb_refl. reflexivity.
Qed.

(** What a key-down leaves of the data when it is not an Enter that is
    being typed. *)
Lemma handleKeypress_other (ev : KeyboardEvent) (w : World) :
  allowTyping (app w) = false \/ keyCode ev <> enter keyCodes ->
  app (fst (handleKeypress keyCodes cmds_find methods ev w)) = app w.
Proof.
  intros H. unfold handleKeypress, Vue_config_keyCodes_enter.
  cbn [methods onKeyPress]. unfold noop.
  destruct (allowTyping (app w)) eqn:Ha; [| reflexivity].
  destruct H as [H | H]; [discriminate |].
  apply Z.eqb_neq in H. rewrite H. cbn [negb].
  destruct (validKeycode _ _ _ _) as [ok held]. now destruct ok.
Qed.

Lemma flush_methods (q : list Tick) (w : World) :
  fold_left (runTick methods) q w = w.
Proof.
  revert w. induction q as [| f q IH]; intros w; [reflexivity |].
  simpl. rewrite IH. now destruct f.
Qed.

(** The data after one input, case by case. *)
Lemma step_app (w : World) (i : Input) :
  app (step keyCodes cmds_find methods w i)
  = match i with
    | Keydown kc =>
        if allowTyping (app w) && (kc =? enter keyCodes)
        then tally (fst (testCmd cmds_find (key_event kc) w)) (app w)
        else app w
    | Keyup _ | Flush => app w
    | Transition st =>
        set_titleState (bool_decide (st = STATES.title))
          (set_state st (app w))
    | Typed text _ => set_cmd text (app w)
    | Typing on => set_allowTyping on (app w)
    end.
Proof.
  destruct i as [kc | kc | st | | text caret | on]; cbn [step].
  - destruct (allowTyping (app w)) eqn:Ha; cbn [andb].
    + destruct (Z.eqb_spec kc (enter keyCodes)) as [E | N].
      * rewrite handleKeypress_enter by assumption. cbn [fst].
        now destruct (negb _).
      * apply handleKeypress_other. now right.
    + apply handleKeypress_other. now left.
  - unfold handleKeyup. now destruct (_ =? _).
  - reflexivity.
  - now rewrite flush_methods.
  - reflexivity.
  - reflexivity.
Qed.

Lemma no_decrease_refl (d : Data) : no_decrease d d.
Proof. unfold no_decrease. lia. Qed.

Lemma no_decrease_trans (a b c : Data) :
  no_decrease a b -> no_decrease b c -> no_decrease a c.
Proof. unfold no_decrease. lia. Qed.

Lemma step_no_decrease (w : World) (i : Input) :
  no_decrease (app w) (app (step keyCodes cmds_find methods w i)).
Proof.
  rewrite step_app.
  destruct i; try (unfold no_decrease; simpl; lia).
  destruct (_ && _); [apply tally_spec | apply no_decrease_refl].
Qed.

(** One input raises [totalValidCommands] by at most one, and only an
    Enter key-down that arrives while typing is enabled raises it. *)
Lemma step_totalValidCommands (w : World) (i : Input) :
  totalValidCommands (count (app (step keyCodes cmds_find methods w i)))
  <= totalValidCommands (count (app w))
     + enters_while keyCodes cmds_find methods typing_on w [i].
Proof.
  rewrite step_app. cbn [enters_while]. unfold typing_on.
  destruct i as [kc | | | | |]; try (simpl; lia).
  destruct (allowTyping (app w)), (kc =? enter keyCodes);
    cbn [andb]; try lia.
  destruct (tally_spec (fst (testCmd cmds_find (key_event kc) w)) (app w))
    as (_ & E & _).
  rewrite E. destruct (Result.valid _); lia.
Qed.

End Session.

(** C4, as the code has it.  After any sequence of inputs,
    [totalValidCommands] has grown by at most the number of Enter key-downs
    processed while typing was enabled ([allowTyping]); each Enter counts at
    most once.  The handler does not look at the phase. *)
Theorem totalValidCommands_bounded_by_typed_enters (kC : KeyCodes)
    (cmds_find : string -> Match.t) (w : World) (inputs : list Input) :
  totalValidCommands (count (app (run kC cmds_find methods w inputs)))
  <= totalValidCommands (count (app w))
     + enters_while kC cmds_find methods typing_on w inputs.
Proof.
  revert w. induction inputs as [| i rest IH]; intros w.
  - simpl. lia.
  - change (run kC cmds_find methods w (i :: rest))
      with (run kC cmds_find methods (step kC cmds_find methods w i) rest).
    specialize (IH (step kC cmds_find methods w i)).
    pose proof (step_totalValidCommands kC cmds_find w i) as Hs.
    cbn [enters_while] in *. lia.
Qed.

(** C4, as stated, fails: with typing enabled on the title screen, an Enter
    after [ls] is counted although no Enter was processed in phase
    [play]. *)
Lemma enter_counted_outside_play :
  let inputs := [Transition STATES.title; Typing true;
                 Typed "ls" 2; Keydown 13] in
  totalValidCommands
    (count (app (run domKeyCodes (find dict_ls) methods world0 inputs))) = 1
  /\ enters_while domKeyCodes (find dict_ls) methods in_play world0 inputs = 0
  /\ ~ (totalValidCommands
          (count (app (run domKeyCodes (find dict_ls) methods world0 inputs)))
        <= enters_while domKeyCodes (find dict_ls) methods in_play world0 inputs).
Proof.
  cbv zeta. split; [reflexivity |]. split; [reflexivity |].
  vm_compute. intros H. apply H. reflexivity.
Qed.

(** C5. Within a session no input lowers the score or any per-language
    count: after any sequence of key events, phase changes, flushes and
    edits, [score], [count.js], [count.bash], [count.html] and [count.py]
    are at least what they were. *)
Theorem counts_and_score_never_decrease (kC : KeyCodes) (cmds_find : string -> Match.t)
    (w : World) (inputs : list Input) :
  no_decrease (app w) (app (run kC cmds_find methods w inputs)).
Proof.
  revert w. induction inputs as [| i rest IH]; intros w.
  - apply no_decrease_refl.
  - change (run kC cmds_find methods w (i :: rest))
      with (run kC cmds_find methods (step kC cmds_find methods w i) rest).
    eapply no_decrease_trans; [apply step_no_decrease | apply IH].
Qed.

(* ================================================================== *)
(** ** The control flag *)
(* ================================================================== *)

(** A key-up of the control key clears the flag, whatever the data. *)
Lemma handleKeyup_ctrl (kC : KeyCodes) (w : World) :
  ctrl_down (handleKeyup kC (key_event (ctrl kC)) w) = false.
Proof. unfold handleKeyup. cbn [key_event keyCode]. now rewrite Z.eqb_refl. Qed.

(** A key-down that reaches the filter sets the flag when it is the control
    key. *)
Lemma handleKeypress_ctrl_typing (kC : KeyCodes) (cmds_find : string -> Match.t)
    (w : World) :
  allowTyping (app w) = true ->
  ctrl kC <> enter kC ->
  ctrl_down (fst (handleKeypress kC cmds_find methods (key_event (ctrl kC)) w))
  = true.
Proof.
  intros Ha Hne. unfold handleKeypress, Vue_config_keyCodes_enter.
  cbn [methods onKeyPress key_event keyCode]. unfold noop.
  rewrite Ha. apply Z.eqb_neq in Hne. rewrite Hne. cbn [negb].
  rewrite validKeycode_ctrl by reflexivity. reflexivity.
Qed.

(** While typing is disabled the handler returns before the filter, so the
    flag keeps its value, also on the key-down of the control key. *)
Lemma handleKeypress_typing_disabled (kC : KeyCodes) (cmds_find : string -> Match.t)
    (ev : KeyboardEvent) (w : World) :
  allowTyping (app w) = false ->
  handleKeypress kC cmds_find methods ev w = (w, preventDefault ev).
Proof.
  intros Ha. unfold handleKeypress. cbn [methods onKeyPress]. unfold noop.
  now rewrite Ha.
Qed.

(** C9, at the failing input.  The control key goes down while typing is
    disabled: the flag stays clear.  Typing is then enabled with the key
    still held, and the letter [a] (code 65) passes the filter.  Had the
    control key gone down with typing enabled, the flag would be set and
    the same letter refused; the key-up clears the flag in either case. *)
Theorem ctrl_keydown_missed_while_typing_disabled :
  let w1 := fst (handleKeypress domKeyCodes (find dict_ls) methods
                   (key_event 17) world0) in
  let w2 := set_app (set_allowTyping true (app w1)) w1 in
  let w1' := fst (handleKeypress domKeyCodes (find dict_ls) methods (key_event 17)
                    (set_app (set_allowTyping true data) world0)) in
  ctrl_down w1 = false
  /\ defaultPrevented
       (snd (handleKeypress domKeyCodes (find dict_ls) methods (key_event 65) w2))
     = false
  /\ ctrl_down w1' = true
  /\ defaultPrevented
       (snd (handleKeypress domKeyCodes (find dict_ls) methods (key_event 65) w1'))
     = true
  /\ ctrl_down (handleKeyup domKeyCodes (key_event 17) w1') = false
  /\ ctrl_down (handleKeyup domKeyCodes (key_event 17)
                  (set_ctrl_down true world0)) = false.
Proof. cbv zeta. repeat split; reflexivity. Qed.

(* ================================================================== *)
(** ** Phase changes *)
(* ================================================================== *)

(** C6, as the code has it.  [toState] makes whatever change it is asked
    for: afterwards the phase is the requested one, [titleState] tells
    whether it is [title], and the hook has received the previous and the
    new phase (the file's own hook prints them).  No phase is refused. *)
Theorem toState_any (this : Hooks) (st : STATES.t) (w : World) :
  toState this st w
  = onStateChange this {| from := state (app w); to := st |}
      (set_app (set_titleState (bool_decide (st = STATES.title))
                  (set_state st (app w))) w)
  /\ state (app (toState methods st w)) = st
  /\ titleState (app (toState methods st w))
     = Some (bool_decide (st = STATES.title))
  /\ console (toState methods st w)
     = console w ++ [{| from := state (app w); to := st |}].
Proof. repeat split. Qed.

(** C6, as stated, fails: from [title] a call reaches [end] without
    passing through [play], and from [end] a call reaches [end] again. *)
Lemma toState_outside_diagram :
  let w := toState methods STATES.title world0 in
  let w' := toState methods STATES.end' w in
  state (app w) = STATES.title
  /\ state (app w') = STATES.end'
  /\ state (app (toState methods STATES.end' w')) = STATES.end'
  /\ ~ permitted (state (app w)) (state (app w'))
  /\ ~ permitted (state (app w'))
         (state (app (toState methods STATES.end' w')))
  /\ ~ follows_diagram methods.
Proof.
  cbv zeta. split; [reflexivity |]. split; [reflexivity |].
  split; [reflexivity |].
  assert (H1 : ~ permitted STATES.title STATES.end')
    by (unfold permitted; intuition discriminate).
  assert (H2 : ~ permitted STATES.end' STATES.end')
    by (unfold permitted; intuition discriminate).
  split; [exact H1 |]. split; [exact H2 |].
  intros H. apply H2.
  exact (H (toState methods STATES.end' world0) STATES.end').
Qed.

(** C7. With the phase handler of the game registered, the change from
    [title] to [play] enables typing and puts the score, every counter and
    the timer back to zero. *)
Theorem title_to_play_resets (w : World) :
  state (app w) = STATES.title ->
  let w' := toState registered STATES.play w in
  state (app w') = STATES.play
  /\ allowTyping (app w') = true
  /\ score (app w') = 0
  /\ count (app w')
     = {| js := 0; bash := 0; html := 0; py := 0;
          totalValidCharacters := 0; totalValidCommands := 0 |}
  /\ timer (app w') = 0.
Proof.
  intros Hs. unfold toState.
  cbn [registered onStateChange onStateChange_spec from to]. rewrite Hs.
  repeat split.
Qed.

Lemma title_to_play_resets_witness :
  let w := run domKeyCodes (find dict_ls) methods world0
             [Transition STATES.title; Typing true; Typed "ls" 2;
              Keydown 13; Typing false] in
  score (app w) = 1200
  /\ allowTyping (app w) = false
  /\ score (app (toState registered STATES.play w)) = 0
  /\ allowTyping (app (toState registered STATES.play w)) = true.
Proof.
  cbv zeta. split; [reflexivity |]. split; [reflexivity |].
  pose proof (title_to_play_resets
                (run domKeyCodes (find dict_ls) methods world0
                   [Transition STATES.title; Typing true; Typed "ls" 2;
                    Keydown 13; Typing false]) eq_refl) as (_ & Ha & Hz & _).
  split; [exact Hz | exact Ha].
Defined.

(* ================================================================== *)
(** ** Sampling the golden commands *)
(* ================================================================== *)

Section Shuffle.

Context {A : Type}.
Implicit Types (l array : list A) (g : Lodash.Random).

(** Writing [x] over [v] and putting [v] in front is a rearrangement. *)
Lemma insert_front_Permutation l (j : nat) (x v : A) :
  l !! j = Some v -> Permutation (v :: <[j := x]> l) (x :: l).
Proof.
  revert j. induction l as [| a l IH]; intros [| j] H; simplify_eq/=.
  - apply perm_swap || reflexivity.
  - rewrite perm_swap. rewrite (IH j H). apply perm_swap.
Qed.

(** Exchanging two positions of an array rearranges it. *)
Lemma exchange_Permutation l (i j : nat) (x v : A) :
  l !! i = Some x -> l !! j = Some v ->
  Permutation (<[i := v]> (<[j := x]> l)) l.
Proof.
  revert i j. induction l as [| a l IH]; intros [| i] [| j] Hi Hj;
    simplify_eq/=.
  - reflexivity.
  - now apply insert_front_Permutation.
  - now apply insert_front_Permutation.
  - constructor. now apply IH.
Qed.

Lemma shuffleLoop_Permutation (n index : nat) array g :
  Permutation (fst (Lodash.shuffleLoop n index array g)) array.
Proof.
  revert index array g. induction n as [| n IH]; intros index array g.
  - reflexivity.
  - cbn [Lodash.shuffleLoop Lodash.baseRandom].
    set (rand := (index + _ mod _)%nat).
    destruct (array !! rand) as [value |] eqn:Er;
      [destruct (array !! index) as [x |] eqn:Ei |]; rewrite IH.
    + now apply exchange_Permutation.
    + reflexivity.
    + reflexivity.
Qed.

Lemma baseClamp_bounds (n len : Z) :
  0 <= len ->
  0 <= Lodash.baseClamp n 0 len <= len
  /\ (0 <= n -> Lodash.baseClamp n 0 len <= n)
  /\ (len <= n -> Lodash.baseClamp n 0 len = len).
Proof.
  intros Hl. unfold Lodash.baseClamp.
  destruct (Z.leb_spec n len); destruct (Z.geb_spec n 0);
    try destruct (Z.geb_spec len 0); lia.
Qed.

(** The sample is the start of a rearrangement of the collection: it draws
    without replacement, has [n] elements when the collection has that
    many, and is the whole collection, rearranged, when it has fewer. *)
Lemma sampleSize_spec l (n : Z) g :
  let sample := fst (Lodash.sampleSize l n g) in
  (exists rest, Permutation (sample ++ rest) l)
  /\ Z.of_nat (List.length sample)
     = Lodash.baseClamp n 0 (Z.of_nat (List.length l))
  /\ (Z.of_nat (List.length l) <= n -> Permutation sample l).
Proof.
  cbv zeta. unfold Lodash.sampleSize, Lodash.shuffleSelf.
  set (k := Z.to_nat _).
  pose proof (shuffleLoop_Permutation k O l g) as Hp.
  destruct (Lodash.shuffleLoop k O l g) as [a g'] eqn:E. cbn [fst] in *.
  pose proof (baseClamp_bounds n (Z.of_nat (List.length l))
                ltac:(lia)) as (Hb & _ & Hall).
  assert (Hlen : List.length a = List.length l)
    by now apply Permutation_length.
  split; [| split].
  - exists (drop k a). now rewrite take_drop.
  - rewrite length_take. subst k. lia.
  - intros Hn. rewrite take_ge; [exact Hp |]. subst k. rewrite Hall; lia.
Qed.

End Shuffle.

Section Eligible.

Local Open Scope string_scope.

Lemma startsWith_underscore (cmd : string) :
  JS.startsWith "_" cmd = true <-> starts_with_underscore cmd.
Proof.
  unfold JS.startsWith, starts_with_underscore.
  destruct cmd as [| c r]; cbn [String.prefix].
  - split; [discriminate | intros (r & H); discriminate].
  - destruct (ascii_dec "_" c) as [<- | N].
    + split; [eauto | now destruct r].
    + split; [discriminate | intros (r' & [= E _]); congruence].
Qed.

Lemma length_append (a b : string) :
  String.length (a ++ b) = (String.length a + String.length b)%nat.
Proof.
  induction a as [| c a IH]; [reflexivity |].
  rewrite append_cons. simpl. now rewrite IH.
Qed.

Lemma substring_last (r : string) (c : ascii) :
  String.substring (String.length r) 1 (r ++ String c "") = String c "".
Proof.
  induction r as [| a r IH]; [reflexivity |].
  rewrite append_cons. simpl. exact IH.
Qed.

(** A non-empty string has a last character. *)
Lemma string_snoc (s : string) :
  s <> "" -> exists r c, s = r ++ String c "".
Proof.
  induction s as [| a s IH]; [congruence |]. intros _.
  destruct s as [| b s].
  - now exists "", a.
  - destruct IH as (r & c & E); [discriminate |].
    exists (String a r), c. now rewrite append_cons, <- E.
Qed.

Lemma endsWith_paren (cmd : string) :
  JS.endsWith ")" cmd = true <-> ends_with_paren cmd.
Proof.
  unfold JS.endsWith, ends_with_paren. split.
  - rewrite andb_true_iff, Nat.leb_le, String.eqb_eq. intros (Hl & E).
    destruct (string_snoc cmd) as (r & c & ->).
    { intros ->. simpl in Hl. lia. }
    rewrite length_append in E. cbn [String.length] in E.
    replace (String.length r + 1 - 1)%nat with (String.length r) in E by lia.
    rewrite substring_last in E. exists r. now rewrite E.
  - intros (r & ->). rewrite length_append. cbn [String.length].
    replace (String.length r + 1 - 1)%nat with (String.length r) by lia.
    rewrite substring_last, String.eqb_refl.
    rewrite andb_true_r. apply Nat.leb_le. lia.
Qed.

(** What passes the three filters of [filterCmds]. *)
Lemma filterCmds_In (config : Config) (cmds : list string) (cmd : string) :
  In cmd (filterCmds config cmds)
  <-> In cmd cmds
      /\ JS.length cmd <= GOLDEN_CMDS_MAX_LENGTH config
      /\ ~ starts_with_underscore cmd
      /\ ~ ends_with_paren cmd.
Proof.
  unfold filterCmds. rewrite !filter_In, !negb_true_iff, Z.leb_le.
  rewrite <- startsWith_underscore, <- endsWith_paren.
  rewrite !not_true_iff_false. tauto.
Qed.

End Eligible.

(** Each language's golden commands are a sample of its eligible
    commands. *)
Lemma pickGoldenCommands_get (dict : Dictionary) (config : Config)
    (g : Lodash.Random) (lang : Lang.t) :
  exists g',
    Golden.get lang (fst (pickGoldenCommands dict config g))
    = fst (Lodash.sampleSize (filterCmds config (dict lang))
             (GOLDEN_CMDS_PER_LANG config) g').
Proof.
  unfold pickGoldenCommands.
  destruct (Lodash.sampleSize (filterCmds config (dict Lang.bash)) _ g)
    as [sbash g1] eqn:E1.
  destruct (Lodash.sampleSize (filterCmds config (dict Lang.js)) _ g1)
    as [sjs g2] eqn:E2.
  destruct (Lodash.sampleSize (filterCmds config (dict Lang.py)) _ g2)
    as [spy g3] eqn:E3.
  destruct (Lodash.sampleSize (filterCmds config (dict Lang.html)) _ g3)
    as [shtml g4] eqn:E4.
  destruct lang; cbn [fst Golden.get Golden.bash Golden.js Golden.py Golden.html].
  - exists g. now rewrite E1.
  - exists g1. now rewrite E2.
  - exists g2. now rewrite E3.
  - exists g3. now rewrite E4.
Qed.

(** C8. Whatever the dictionary, the configuration and the random draws,
    every command that [pickGoldenCommands] returns for a language comes
    from that language's list, is no longer than the configured maximum,
    does not start with an underscore and does not end with a closing
    parenthesis; the sample of a language has at most the configured number
    of commands, and when no more than that many commands are eligible all
    of them are returned. *)
Theorem pickGoldenCommands_sound (dict : Dictionary) (config : Config)
    (g : Lodash.Random) (lang : Lang.t) :
  0 <= GOLDEN_CMDS_PER_LANG config ->
  let golden := Golden.get lang (fst (pickGoldenCommands dict config g)) in
  let eligible := filterCmds config (dict lang) in
  (forall cmd, In cmd golden ->
     In cmd (dict lang)
     /\ JS.length cmd <= GOLDEN_CMDS_MAX_LENGTH config
     /\ ~ starts_with_underscore cmd
     /\ ~ ends_with_paren cmd)
  /\ Z.of_nat (List.length golden) <= GOLDEN_CMDS_PER_LANG config
  /\ (Z.of_nat (List.length eligible) <= GOLDEN_CMDS_PER_LANG config ->
      Permutation golden eligible
      /\ forall cmd,
           In cmd (dict lang) ->
           JS.length cmd <= GOLDEN_CMDS_MAX_LENGTH config ->
           ~ starts_with_underscore cmd ->
           ~ ends_with_paren cmd ->
           In cmd golden).
Proof.
  intros Hn. cbv zeta.
  destruct (pickGoldenCommands_get dict config g lang) as (g' & ->).
  destruct (sampleSize_spec (filterCmds config (dict lang))
              (GOLDEN_CMDS_PER_LANG config) g') as ((rest & Hp) & Hl & Hall).
  split; [| split].
  - intros cmd Hin. apply filterCmds_In.
    eapply Permutation_in; [exact Hp |]. apply in_or_app. now left.
  - rewrite Hl.
    apply (baseClamp_bounds (GOLDEN_CMDS_PER_LANG config)
             (Z.of_nat (List.length (filterCmds config (dict lang))))
             ltac:(lia)); exact Hn.
  - intros Hfew. specialize (Hall Hfew). split; [exact Hall |].
    intros cmd H1 H2 H3 H4. eapply Permutation_in.
    + symmetry. exact Hall.
    + apply filterCmds_In. tauto.
Qed.

Lemma pickGoldenCommands_sound_witness :
  let dict : Dictionary :=
    fun l => match l with
             | Lang.js => ["log"; "_x"; "f()"; "averyveryverylongname"; "map"]
             | _ => ["ls"; "cd"; "pwd"]
             end%string in
  let config := {| GOLDEN_CMDS_MAX_LENGTH := 10; GOLDEN_CMDS_PER_LANG := 2 |} in
  let g : Lodash.Random := fun k => (7 * k + 3)%nat in
  Z.of_nat (List.length (Golden.js (fst (pickGoldenCommands dict config g))))
  <= 2
  /\ Z.of_nat (List.length (Golden.bash (fst (pickGoldenCommands dict config g))))
     <= 2
  /\ Permutation (Golden.js (fst (pickGoldenCommands dict config g)))
       ["log"; "map"]%string.
Proof.
  cbv zeta.
  pose proof (pickGoldenCommands_sound
    (fun l => match l with
              | Lang.js => ["log"; "_x"; "f()"; "averyveryverylongname"; "map"]
              | _ => ["ls"; "cd"; "pwd"]
              end%string)
    {| GOLDEN_CMDS_MAX_LENGTH := 10; GOLDEN_CMDS_PER_LANG := 2 |}
    (fun k => (7 * k + 3)%nat)) as H.
  split; [| split].
  - apply (H Lang.js). simpl. lia.
  - apply (H Lang.bash). simpl. lia.
  - apply (H Lang.js); simpl; lia.
Defined.

(* ================================================================== *)
(** ** More on the filter and the control flag *)
(* ================================================================== *)

Lemma validKeycode_snd (kC : KeyCodes) (ev : KeyboardEvent)
    (leftChar : option ascii) (held : bool) :
  snd (validKeycode kC ev leftChar held) = held || (keyCode ev =? ctrl kC).
Proof.
  unfold validKeycode. now destruct (keyCode ev =? ctrl kC), held.
Qed.

(** X1. The flag after [validKeycode] is the flag before, or set because
    the key is the control key; and a key is accepted only with the flag
    clear afterwards, so never the control key itself and never under a
    held control key, whatever the key-code table. *)
Theorem validKeycode_flag (kC : KeyCodes) (ev : KeyboardEvent)
    (leftChar : option ascii) (held : bool) :
  snd (validKeycode kC ev leftChar held)
  = held || (keyCode ev =? ctrl kC)
  /\ (fst (validKeycode kC ev leftChar held) = true ->
      held = false /\ keyCode ev <> ctrl kC).
Proof.
  unfold validKeycode.
  destruct (Z.eqb_spec (keyCode ev) (ctrl kC)) as [E | N], held;
    cbn [fst snd orb]; (split; [reflexivity |]);
    intros H; (discriminate || tauto).
Qed.

(** X2. The character left of the cursor matters for left-arrow and
    backspace only: for any other key the filter gives the same verdict
    and the same flag whatever that character is. *)
Theorem validKeycode_leftChar_irrelevant (kC : KeyCodes)
    (ev : KeyboardEvent) (l1 l2 : option ascii) (held : bool) :
  keyCode ev <> left_arrow kC ->
  keyCode ev <> backspace kC ->
  validKeycode kC ev l1 held = validKeycode kC ev l2 held.
Proof.
  intros Hl Hb. unfold validKeycode.
  apply Z.eqb_neq in Hl, Hb. rewrite Hl, Hb.
  now rewrite !andb_false_r.
Qed.

Lemma validKeycode_leftChar_irrelevant_witness :
  validKeycode domKeyCodes (key_event 65) (Some JS.LF) false
  = validKeycode domKeyCodes (key_event 65) None false.
Proof.
  apply (validKeycode_leftChar_irrelevant domKeyCodes (key_event 65));
    simpl; lia.
Defined.

(** With the flag set the filter refuses. *)
Lemma validKeycode_ctrl_held_any (kC : KeyCodes) (ev : KeyboardEvent)
    (leftChar : option ascii) :
  validKeycode kC ev leftChar true = (false, true).
Proof. unfold validKeycode. now destruct (_ =? _). Qed.

Section Handlers.

Variable kC : KeyCodes.
Variable cmds_find : string -> Match.t.

Lemma set_ctrl_down_id (w : World) : set_ctrl_down (ctrl_down w) w = w.
Proof. now destruct w. Qed.

(** The flag after a key-down: raised by the control key when the event
    reaches the filter, otherwise as before. *)
Lemma handleKeypress_ctrl_down (ev : KeyboardEvent) (w : World) :
  ctrl_down (fst (handleKeypress kC cmds_find methods ev w))
  = ctrl_down w
    || (allowTyping (app w) && negb (keyCode ev =? enter kC)
        && (keyCode ev =? ctrl kC)).
Proof.
  destruct (allowTyping (app w)) eqn:Ha.
  - destruct (Z.eqb_spec (keyCode ev) (enter kC)) as [E | N].
    + rewrite (handleKeypress_enter kC cmds_find ev w Ha E). cbn [fst].
      rewrite orb_false_r. now destruct (negb _).
    + unfold handleKeypress, Vue_config_keyCodes_enter.
      cbn [methods onKeyPress]. unfold noop. rewrite Ha.
      apply Z.eqb_neq in N. rewrite N. cbn [negb andb].
      pose proof (validKeycode_snd kC ev
                    (JS.index (cmd (app w)) (selectionStart (textarea w) - 1))
                    (ctrl_down w)) as Hf.
      destruct (validKeycode _ _ _ _) as [ok held']. cbn [snd] in Hf.
      subst held'. now destruct ok.
  - rewrite handleKeypress_typing_disabled by exact Ha.
    cbn [fst andb]. now rewrite orb_false_r.
Qed.

(** X3. While the control flag is set, every key-down has its default
    action prevented, whatever the key and whether typing is enabled or
    not, and the flag stays set. *)
Theorem keydown_under_ctrl_prevented (ev : KeyboardEvent) (w : World) :
  ctrl_down w = true ->
  defaultPrevented (snd (handleKeypress kC cmds_find methods ev w)) = true
  /\ ctrl_down (fst (handleKeypress kC cmds_find methods ev w)) = true.
Proof.
  intros Hc. split.
  - destruct (allowTyping (app w)) eqn:Ha.
    + destruct (Z.eqb_spec (keyCode ev) (enter kC)) as [E | N].
      * now rewrite (handleKeypress_enter kC cmds_find ev w Ha E).
      * unfold handleKeypress, Vue_config_keyCodes_enter.
        cbn [methods onKeyPress]. unfold noop. rewrite Ha.
        apply Z.eqb_neq in N. rewrite N, Hc. cbn [negb].
        now rewrite validKeycode_ctrl_held_any.
    + now rewrite handleKeypress_typing_disabled.
  - rewrite handleKeypress_ctrl_down, Hc. reflexivity.
Qed.

(** X4. Pressing and releasing the control key, with the flag clear
    before, leaves the world exactly as it was: the key-down changes at
    most the flag, and the key-up clears it again. *)
Theorem ctrl_press_release (w : World) :
  ctrl_down w = false ->
  ctrl kC <> enter kC ->
  handleKeyup kC (key_event (ctrl kC))
    (fst (handleKeypress kC cmds_find methods (key_event (ctrl kC)) w))
  = w.
Proof.
  intros Hc Hne. unfold handleKeyup. cbn [key_event keyCode].
  rewrite Z.eqb_refl. rewrite <- (set_ctrl_down_id w) at 2. rewrite Hc.
  destruct (allowTyping (app w)) eqn:Ha.
  - unfold handleKeypress, Vue_config_keyCodes_enter.
    cbn [methods onKeyPress key_event keyCode]. unfold noop. rewrite Ha.
    apply Z.eqb_neq in Hne. rewrite Hne. cbn [negb].
    rewrite validKeycode_ctrl by reflexivity. reflexivity.
  - now rewrite handleKeypress_typing_disabled.
Qed.

(** X5. With typing enabled and the flag clear, a left-arrow or backspace
    key-down is prevented exactly when the character left of the cursor is
    a newline; at the start of the buffer, where there is no such
    character, it is let through. *)
Theorem caret_key_stops_at_newline (kc : Z) (w : World) :
  allowTyping (app w) = true ->
  ctrl_down w = false ->
  caret_key kC kc ->
  (defaultPrevented
     (snd (handleKeypress kC cmds_find methods (key_event kc) w)) = true
   <-> JS.index (cmd (app w)) (selectionStart (textarea w) - 1)
       = Some JS.LF)
  /\ (selectionStart (textarea w) = 0 ->
      defaultPrevented
        (snd (handleKeypress kC cmds_find methods (key_event kc) w))
      = false).
Proof.
  intros Ha Hc (Hk & He & Hct & Hr & Hn & Hal & Hp).
  assert (Hiff :
    defaultPrevented
      (snd (handleKeypress kC cmds_find methods (key_event kc) w)) = true
    <-> JS.index (cmd (app w)) (selectionStart (textarea w) - 1)
        = Some JS.LF).
  { unfold handleKeypress, Vue_config_keyCodes_enter.
    cbn [methods onKeyPress key_event keyCode]. unfold noop. rewrite Ha, Hc.
    apply Z.eqb_neq in He. rewrite He. cbn [negb].
    unfold validKeycode. cbn [keyCode key_event existsb].
    apply Z.eqb_neq in Hct, Hr. rewrite Hct, Hn, Hal, Hp, He, Hr.
    cbn [orb].
    assert (Hlb : (kc =? left_arrow kC) || (kc =? backspace kC) = true).
    { apply orb_true_iff. rewrite !Z.eqb_eq. exact Hk. }
    rewrite Hlb, andb_true_r.
    destruct (bool_decide_reflect
                (JS.index (cmd (app w)) (selectionStart (textarea w) - 1)
                 = Some JS.LF)) as [E | N]; cbn [negb snd defaultPrevented
                                                  preventDefault key_event].
    - tauto.
    - split; [discriminate | contradiction]. }
  split; [exact Hiff |].
  intros H0. apply not_true_is_false. intros E.
  apply Hiff in E. rewrite H0 in E. discriminate.
Qed.

(** X6. While typing is disabled, key-downs change nothing at all: each
    has its default action prevented and the world after any number of
    them is the world before.  In particular Enter is not scored. *)
Theorem keydowns_ignored_while_typing_disabled (kcs : list Z) (w : World) :
  allowTyping (app w) = false ->
  run kC cmds_find methods w (List.map Keydown kcs) = w
  /\ forall kc,
       defaultPrevented
         (snd (handleKeypress kC cmds_find methods (key_event kc) w)) = true.
Proof.
  intros Ha. split.
  - induction kcs as [| kc kcs IH]; [reflexivity |].
    cbn [List.map]. unfold run in *. cbn [fold_left step].
    rewrite handleKeypress_typing_disabled by exact Ha. exact IH.
  - intros kc. now rewrite handleKeypress_typing_disabled.
Qed.

End Handlers.

Lemma keydown_under_ctrl_prevented_witness :
  defaultPrevented
    (snd (handleKeypress domKeyCodes (find dict_ls) methods (key_event 65)
            (set_ctrl_down true
               (set_app (set_allowTyping true data) world0)))) = true.
Proof.
  apply (keydown_under_ctrl_prevented domKeyCodes (find dict_ls)
           (key_event 65)
           (set_ctrl_down true (set_app (set_allowTyping true data) world0))).
  reflexivity.
Defined.

Lemma ctrl_press_release_witness :
  let w := set_app (set_cmd "ls" (set_allowTyping true data)) world0 in
  handleKeyup domKeyCodes (key_event 17)
    (fst (handleKeypress domKeyCodes (find dict_ls) methods (key_event 17) w))
  = w.
Proof.
  apply (ctrl_press_release domKeyCodes (find dict_ls)
           (set_app (set_cmd "ls" (set_allowTyping true data)) world0)).
  - reflexivity.
  - simpl. lia.
Defined.

Lemma caret_key_stops_at_newline_witness :
  let w := set_textarea {| selectionStart := 3 |}
             (set_app (set_cmd "ls
" (set_allowTyping true data)) world0) in
  defaultPrevented
    (snd (handleKeypress domKeyCodes (find dict_ls) methods (key_event 8) w))
  = true.
Proof.
  cbv zeta.
  apply (caret_key_stops_at_newline domKeyCodes (find dict_ls) 8
           (set_textarea {| selectionStart := 3 |}
              (set_app (set_cmd "ls
" (set_allowTyping true data)) world0))).
  - reflexivity.
  - reflexivity.
  - unfold caret_key. simpl. repeat split; (lia || reflexivity || tauto).
  - reflexivity.
Defined.

Lemma keydowns_ignored_while_typing_disabled_witness :
  run domKeyCodes (find dict_ls) methods
    (set_app (set_cmd "ls" data) world0)
    (List.map Keydown [65; 13; 17; 8])
  = set_app (set_cmd "ls" data) world0.
Proof.
  apply (keydowns_ignored_while_typing_disabled domKeyCodes (find dict_ls)
           [65; 13; 17; 8] (set_app (set_cmd "ls" data) world0)).
  reflexivity.
Defined.

(* ================================================================== *)
(** ** More on scoring and sessions *)
(* ================================================================== *)

Section Sessions.

Variable kC : KeyCodes.
Variable cmds_find : string -> Match.t.

Lemma run_cons (w : World) (i : Input) (rest : list Input) :
  run kC cmds_find methods w (i :: rest)
  = run kC cmds_find methods (step kC cmds_find methods w i) rest.
Proof. reflexivity. Qed.

Lemma tally_totals (result : Result.t) (d : Data) :
  totalValidCharacters (count (tally result d))
  = totalValidCharacters (count d)
    + (if Result.valid result then JS.length (Result.cmd result) else 0).
Proof.
  pose proof (fold_count_incr (Result.lang result) (count d)) as H.
  unfold tally. cbv zeta in H.
  destruct (Result.valid result); simpl; lia.
Qed.

Lemma step_score_balance (w : World) (i : Input) :
  score_balance (app (step kC cmds_find methods w i))
  = score_balance (app w).
Proof.
  rewrite step_app. destruct i; try reflexivity.
  destruct (_ && _); [| reflexivity].
  set (result := fst (testCmd cmds_find (key_event kc) w)).
  destruct (tally_spec result (app w)) as (_ & E1 & E2 & _).
  pose proof (tally_totals result (app w)) as E3.
  unfold score_balance. rewrite E1, E2, E3.
  destruct (Result.valid result); lia.
Qed.

(** X7. Throughout a session the score is accounted for by the two
    totals: no input changes [score - 1000 * totalValidCommands
    - 100 * totalValidCharacters], so a session that starts from the
    declared data always has [score = 1000 * totalValidCommands
    + 100 * totalValidCharacters]. *)
Theorem score_accounted_by_totals (w : World) (inputs : list Input) :
  score_balance (app (run kC cmds_find methods w inputs))
  = score_balance (app w)
  /\ score (app (run kC cmds_find methods world0 inputs))
     = 1000 * totalValidCommands
                (count (app (run kC cmds_find methods world0 inputs)))
       + 100 * totalValidCharacters
                 (count (app (run kC cmds_find methods world0 inputs))).
Proof.
  assert (H : forall w0, score_balance
                           (app (run kC cmds_find methods w0 inputs))
                         = score_balance (app w0)).
  { induction inputs as [| i rest IH]; intros w0; [reflexivity |].
    now rewrite run_cons, IH, step_score_balance. }
  split; [apply H |].
  specialize (H world0). unfold score_balance in H. simpl in H. lia.
Qed.

Lemma step_totals (w : World) (i : Input) :
  totalValidCommands (count (app w))
  <= totalValidCommands (count (app (step kC cmds_find methods w i)))
  /\ totalValidCharacters (count (app w))
     <= totalValidCharacters (count (app (step kC cmds_find methods w i))).
Proof.
  rewrite step_app. destruct i; try (simpl; lia).
  destruct (_ && _); [| lia].
  set (result := fst (testCmd cmds_find (key_event kc) w)).
  destruct (tally_spec result (app w)) as (_ & E1 & _).
  pose proof (tally_totals result (app w)) as E3.
  pose proof (length_nonneg (Result.cmd result)).
  rewrite E1, E3. destruct (Result.valid result); lia.
Qed.

(** X8. The two totals never go down either: after any sequence of inputs
    [totalValidCommands] and [totalValidCharacters] are at least what they
    were. *)
Theorem totals_never_decrease (w : World) (inputs : list Input) :
  totalValidCommands (count (app w))
  <= totalValidCommands (count (app (run kC cmds_find methods w inputs)))
  /\ totalValidCharacters (count (app w))
     <= totalValidCharacters
          (count (app (run kC cmds_find methods w inputs))).
Proof.
  revert w. induction inputs as [| i rest IH]; intros w; [simpl; lia |].
  rewrite run_cons. specialize (IH (step kC cmds_find methods w i)).
  pose proof (step_totals w i). lia.
Qed.

(** One key event or flush keeps the textarea and the console. *)
Lemma key_inputs_keep_settings_step (w : World) (i : Input) :
  key_input i = true ->
  console (step kC cmds_find methods w i) = console w.
Proof.
  destruct i as [kc | kc | | | |]; try discriminate; intros _; cbn [step].
  - destruct (allowTyping (app w)) eqn:Ha.
    + destruct (Z.eqb_spec kc (enter kC)) as [E | N].
      * rewrite (handleKeypress_enter kC cmds_find (key_event kc) w Ha E).
        cbn [fst]. now destruct (negb _).
      * unfold handleKeypress, Vue_config_keyCodes_enter.
        cbn [methods onKeyPress key_event keyCode]. unfold noop.
        rewrite Ha. apply Z.eqb_neq in N. rewrite N. cbn [negb].
        destruct (validKeycode _ _ _ _) as [ok held]. now destruct ok.
    + now rewrite handleKeypress_typing_disabled.
  - unfold handleKeyup. now destruct (_ =? _).
  - now rewrite flush_methods.
Qed.

(** X9. Key events and flushes leave everything but the score and the
    counters alone: the buffer, the phase, [titleState], the typing switch,
    the timer and the game duration are after any sequence of them what
    they were before.  The handlers never write the buffer themselves. *)
Theorem key_inputs_keep_settings (w : World) (inputs : list Input) :
  forallb key_input inputs = true ->
  let w' := run kC cmds_find methods w inputs in
  cmd (app w') = cmd (app w)
  /\ state (app w') = state (app w)
  /\ titleState (app w') = titleState (app w)
  /\ allowTyping (app w') = allowTyping (app w)
  /\ timer (app w') = timer (app w)
  /\ gameDuration (app w') = gameDuration (app w)
  /\ textarea w' = textarea w
  /\ console w' = console w.
Proof.
  cbv zeta. revert w. induction inputs as [| i rest IH]; intros w H.
  - repeat split.
  - cbn [forallb] in H. apply andb_true_iff in H as (Hi & Hr).
    rewrite run_cons. specialize (IH (step kC cmds_find methods w i) Hr).
    assert (Hs : cmd (app (step kC cmds_find methods w i)) = cmd (app w)
                 /\ state (app (step kC cmds_find methods w i)) = state (app w)
                 /\ titleState (app (step kC cmds_find methods w i))
                    = titleState (app w)
                 /\ allowTyping (app (step kC cmds_find methods w i))
                    = allowTyping (app w)
                 /\ timer (app (step kC cmds_find methods w i))
                    = timer (app w)
                 /\ gameDuration (app (step kC cmds_find methods w i))
                    = gameDuration (app w)).
    { rewrite step_app. destruct i; try discriminate; try (repeat split).
      all: destruct (_ && _); try reflexivity.
      all: unfold tally; now destruct (Result.valid _). }
    assert (Hd : textarea (step kC cmds_find methods w i) = textarea w
                 /\ console (step kC cmds_find methods w i) = console w).
    { destruct i as [kc | kc | | | |]; try discriminate; cbn [step].
      - destruct (allowTyping (app w)) eqn:Ha.
        + destruct (Z.eqb_spec kc (enter kC)) as [E | N].
          * rewrite (handleKeypress_enter kC cmds_find (key_event kc) w Ha E).
            cbn [fst]. now destruct (negb _).
          * unfold handleKeypress, Vue_config_keyCodes_enter.
            cbn [methods onKeyPress key_event keyCode]. unfold noop.
            rewrite Ha. apply Z.eqb_neq in N. rewrite N. cbn [negb].
            destruct (validKeycode _ _ _ _) as [ok held]. now destruct ok.
        + now rewrite handleKeypress_typing_disabled.
      - unfold handleKeyup. now destruct (_ =? _).
      - now rewrite flush_methods. }
    intuition congruence.
Qed.

End Sessions.

Lemma key_inputs_keep_settings_witness :
  let w := set_app (set_cmd "ls" (set_allowTyping true data)) world0 in
  cmd (app (run domKeyCodes (find dict_ls) methods w
              [Keydown 13; Keydown 8; Keyup 8; Flush]))
  = "ls"%string.
Proof.
  cbv zeta.
  apply (key_inputs_keep_settings domKeyCodes (find dict_ls)
           (set_app (set_cmd "ls" (set_allowTyping true data)) world0)
           [Keydown 13; Keydown 8; Keyup 8; Flush]).
  reflexivity.
Defined.

Section Phases.

Variable kC : KeyCodes.
Variable cmds_find : string -> Match.t.

Lemma step_ctrl_down (w : World) (i : Input) :
  ctrl_down w = true ->
  not_ctrl_keyup kC i = true ->
  ctrl_down (step kC cmds_find methods w i) = true.
Proof.
  intros Hc Hi. destruct i as [kc | kc | st | | text caret | on];
    cbn [step].
  - rewrite handleKeypress_ctrl_down, Hc. reflexivity.
  - unfold handleKeyup. cbn [key_event keyCode].
    cbn [not_ctrl_keyup] in Hi. apply negb_true_iff in Hi. now rewrite Hi.
  - exact Hc.
  - now rewrite flush_methods.
  - exact Hc.
  - exact Hc.
Qed.

(** X10. Only the key-up of the control key lowers the flag: once set, it
    stays set through any sequence of inputs that has no such key-up. *)
Theorem ctrl_flag_held_until_keyup (w : World) (inputs : list Input) :
  ctrl_down w = true ->
  forallb (not_ctrl_keyup kC) inputs = true ->
  ctrl_down (run kC cmds_find methods w inputs) = true.
Proof.
  revert w. induction inputs as [| i rest IH]; intros w Hc H.
  - exact Hc.
  - cbn [forallb] in H. apply andb_true_iff in H as (Hi & Hr).
    rewrite run_cons. apply IH; [now apply step_ctrl_down | exact Hr].
Qed.

Lemma step_state (w : World) (i : Input) :
  state (app (step kC cmds_find methods w i))
  = match i with Transition st => st | _ => state (app w) end.
Proof.
  rewrite step_app. destruct i; try reflexivity.
  destruct (_ && _); [| reflexivity].
  unfold tally. now destruct (Result.valid _).
Qed.

(** X11. The phase after a session is the one most recently asked of
    [toState], and the phase at the start when [toState] was not called:
    nothing else changes it. *)
Theorem state_is_last_requested (w : World) (inputs : list Input) :
  state (app (run kC cmds_find methods w inputs))
  = default (state (app w)) (last_transition inputs).
Proof.
  revert w. induction inputs as [| i rest IH]; intros w; [reflexivity |].
  rewrite run_cons, IH, step_state. cbn [last_transition].
  destruct (last_transition rest); [reflexivity |]. now destruct i.
Qed.

Lemma step_titleState (w : World) (i : Input) :
  titleState_agrees (app w) ->
  titleState_agrees (app (step kC cmds_find methods w i)).
Proof.
  intros H. rewrite step_app. destruct i; try exact H.
  - destruct (_ && _); [| exact H].
    unfold tally. now destruct (Result.valid _).
  - right. reflexivity.
Qed.

(** X12. [titleState] never disagrees with the phase: if it is undefined
    or tells whether the phase is [title], the same holds after any
    sequence of inputs; so it holds in every session that starts from the
    declared data. *)
Theorem titleState_follows_state (w : World) (inputs : list Input) :
  titleState_agrees (app w) ->
  titleState_agrees (app (run kC cmds_find methods w inputs)).
Proof.
  revert w. induction inputs as [| i rest IH]; intros w H; [exact H |].
  rewrite run_cons. apply IH. now apply step_titleState.
Qed.

Lemma last_snoc {A} (l : list A) (x : A) : Lodash.last (l ++ [x]) = Some x.
Proof.
  unfold Lodash.last. rewrite List.map_app. cbn [List.map].
  now rewrite List.last_last.
Qed.

Lemma chained_snoc (log : list Change) (c : Change) :
  chained log ->
  (forall c0, Lodash.last log = Some c0 -> to c0 = from c) ->
  chained (log ++ [c]).
Proof.
  induction log as [| c1 log IH]; intros Hc Hl; [exact I |].
  destruct log as [| c2 log].
  - cbn. split; [apply Hl; reflexivity | exact I].
  - destruct Hc as (H12 & Hc). split; [exact H12 |].
    apply IH; [exact Hc | exact Hl].
Qed.

Lemma step_console (w : World) (i : Input) :
  console (step kC cmds_find methods w i)
  = match i with
    | Transition st => console w ++ [{| from := state (app w); to := st |}]
    | _ => console w
    end.
Proof.
  destruct i as [kc | kc | st | | text caret | on]; cbn [step];
    try reflexivity.
  - apply (key_inputs_keep_settings_step kC cmds_find w (Keydown kc)).
    reflexivity.
  - apply (key_inputs_keep_settings_step kC cmds_find w (Keyup kc)).
    reflexivity.
  - now rewrite flush_methods.
Qed.

(** X13. What the file's own [onStateChange] prints is a path of phase
    changes ending in the current phase: every printed change starts where
    the previous one ended, and the last one ends in [state].  This is kept
    by every input. *)
Theorem console_follows_state (w : World) (inputs : list Input) :
  log_follows_state w ->
  log_follows_state (run kC cmds_find methods w inputs).
Proof.
  revert w. induction inputs as [| i rest IH]; intros w H; [exact H |].
  rewrite run_cons. apply IH. destruct H as (Hc & Hl).
  unfold log_follows_state. rewrite step_console, step_state.
  destruct i as [kc | kc | st | | text caret | on]; try (split; assumption).
  split.
  - apply chained_snoc; [exact Hc |]. intros c0 H0. now apply Hl.
  - intros c. rewrite last_snoc. now intros [= <-].
Qed.

End Phases.

Lemma ctrl_flag_held_until_keyup_witness :
  ctrl_down
    (run domKeyCodes (find dict_ls) methods
       (set_app (set_allowTyping true data) world0)
       [Keydown 17; Keydown 65; Keyup 65; Typed "a" 1; Keydown 13; Flush])
  = true.
Proof.
  apply (ctrl_flag_held_until_keyup domKeyCodes (find dict_ls)
           (step domKeyCodes (find dict_ls) methods
              (set_app (set_allowTyping true data) world0) (Keydown 17))
           [Keydown 65; Keyup 65; Typed "a" 1; Keydown 13; Flush]);
    reflexivity.
Defined.

Lemma titleState_follows_state_witness :
  titleState_agrees
    (app (run domKeyCodes (find dict_ls) methods world0
            [Transition STATES.title; Typing true; Keydown 65;
             Transition STATES.play])).
Proof.
  apply (titleState_follows_state domKeyCodes (find dict_ls) world0).
  left. reflexivity.
Defined.

Lemma console_follows_state_witness :
  log_follows_state
    (run domKeyCodes (find dict_ls) methods world0
       [Transition STATES.title; Typing true; Keydown 65;
        Transition STATES.play; Transition STATES.end']).
Proof.
  apply (console_follows_state domKeyCodes (find dict_ls) world0).
  split; [exact I | discriminate].
Defined.

(* ================================================================== *)
(** ** More on the command test *)
(* ================================================================== *)

Section Tested.

Variable kC : KeyCodes.
Variable cmds_find : string -> Match.t.

Lemma chars_app (a b : string) :
  list_ascii_of_string (a ++ b)%string
  = list_ascii_of_string a ++ list_ascii_of_string b.
Proof.
  induction a as [| c a IH]; [reflexivity |].
  rewrite append_cons. cbn [list_ascii_of_string]. now rewrite IH.
Qed.

(** X14. The line that [testCmd] tests never holds a newline, whatever the
    buffer: every line break of the buffer lies before it. *)
Theorem tested_line_has_no_newline (ev : KeyboardEvent) (w : World) :
  no_newline (Result.cmd (fst (testCmd cmds_find ev w))).
Proof.
  cbn [testCmd fst Result.cmd].
  destruct (last_split (cmd (app w))) as (seg & Hl & (pre & _ & Hn & _)).
  rewrite Hl. cbn [default].
  destruct (trim_spec seg) as (l & r & E & _).
  unfold no_newline in *. intros Hin. apply Hn. rewrite E at 1.
  rewrite !chars_app, !in_app_iff. tauto.
Qed.

Lemma fold_count_incr_occ (langs : list Lang.t) (c : Count) (lang : Lang.t) :
  count_of lang (fold_left count_incr langs c)
  = count_of lang c + Z.of_nat (count_occ Lang.eq_dec langs lang).
Proof.
  revert c. induction langs as [| l langs IH]; intros c.
  - cbn. lia.
  - cbn [fold_left count_occ]. rewrite IH.
    destruct (Lang.eq_dec l lang) as [-> | N].
    + destruct lang; cbn; lia.
    + destruct l, lang; try congruence; cbn; lia.
Qed.

(** X15. On an Enter that is typed, each language counter grows by the
    number of times that language occurs in the result's language list,
    whether the result is valid or not: a command known under several
    languages raises each of their counters. *)
Theorem enter_counts_every_language (ev : KeyboardEvent) (w : World)
    (lang : Lang.t) :
  allowTyping (app w) = true ->
  keyCode ev = enter kC ->
  count_of lang
    (count (app (fst (handleKeypress kC cmds_find methods ev w))))
  = count_of lang (count (app w))
    + Z.of_nat (count_occ Lang.eq_dec
                  (Result.lang (fst (testCmd cmds_find ev w))) lang).
Proof.
  intros Ha He. rewrite (handleKeypress_enter kC cmds_find ev w Ha He).
  cbn [fst]. set (result := fst (testCmd cmds_find ev w)).
  assert (E : app (if negb (JS.length (Result.cmd result) =? 0)
                   then nextTick tickRefocus
                          (set_app (tally result (app w))
                             (nextTick (tickOnResult result) w))
                   else set_app (tally result (app w))
                          (nextTick (tickOnResult result) w))
              = tally result (app w)) by now destruct (negb _).
  rewrite E. unfold tally.
  pose proof (fold_count_incr_occ (Result.lang result) (count (app w)) lang)
    as H.
  destruct (Result.valid result); cbn [count set_count set_score];
    rewrite <- H; now destruct lang.
Qed.

(** X16. An Enter that is typed queues one [onResult] callback with the
    result it tallied, and after it one refocus of the textarea unless the
    tested line is empty; nothing else is queued and nothing is removed. *)
Theorem enter_queues_callbacks (ev : KeyboardEvent) (w : World) :
  allowTyping (app w) = true ->
  keyCode ev = enter kC ->
  let result := fst (testCmd cmds_find ev w) in
  ticks (fst (handleKeypress kC cmds_find methods ev w))
  = ticks w ++ tickOnResult result
               :: (if decide (Result.cmd result = EmptyString)
                   then [] else [tickRefocus]).
Proof.
  intros Ha He. cbv zeta.
  rewrite (handleKeypress_enter kC cmds_find ev w Ha He). cbn [fst].
  set (result := fst (testCmd cmds_find ev w)).
  destruct (decide (Result.cmd result = EmptyString)) as [E | N].
  - rewrite E. reflexivity.
  - assert (Hn : (JS.length (Result.cmd result) =? 0) = false).
    { apply Z.eqb_neq. unfold JS.length.
      destruct (Result.cmd result); [congruence | simpl; lia]. }
    rewrite Hn. cbn [negb nextTick set_ticks ticks set_app].
    now rewrite <- app_assoc.
Qed.

End Tested.

Lemma enter_counts_every_language_witness :
  let both : string -> Match.t :=
    fun line => {| Match.cmd := Some line;
                   Match.lang := [Lang.bash; Lang.js] |} in
  let w := set_app (set_cmd "ls" (set_allowTyping true data)) world0 in
  js (count (app (fst (handleKeypress domKeyCodes both methods
                         (key_event 13) w)))) = 1.
Proof.
  cbv zeta.
  apply (enter_counts_every_language domKeyCodes
           (fun line => {| Match.cmd := Some line;
                           Match.lang := [Lang.bash; Lang.js] |})
           (key_event 13)
           (set_app (set_cmd "ls" (set_allowTyping true data)) world0)
           Lang.js); reflexivity.
Defined.

Lemma enter_queues_callbacks_witness :
  let w := set_app (set_cmd "   " (set_allowTyping true data)) world0 in
  List.length
    (ticks (fst (handleKeypress domKeyCodes (find dict_ls) methods
                   (key_event 13) w))) = 1%nat.
Proof.
  cbv zeta.
  rewrite (enter_queues_callbacks domKeyCodes (find dict_ls) (key_event 13)
             (set_app (set_cmd "   " (set_allowTyping true data)) world0)
             eq_refl eq_refl).
  reflexivity.
Defined.

(* ================================================================== *)
(** ** More on the golden commands *)
(* ================================================================== *)

Lemma filterCmds_NoDup (config : Config) (cmds : list string) :
  List.NoDup cmds -> List.NoDup (filterCmds config cmds).
Proof.
  intros H. unfold filterCmds. now repeat apply List.NoDup_filter.
Qed.

(** X17. The sample is drawn without replacement: a language whose command
    list has no repeated entry gets golden commands without repetition,
    whatever the random draws. *)
Theorem pickGoldenCommands_NoDup (dict : Dictionary) (config : Config)
    (g : Lodash.Random) (lang : Lang.t) :
  List.NoDup (dict lang) ->
  List.NoDup (Golden.get lang (fst (pickGoldenCommands dict config g))).
Proof.
  intros Hnd.
  destruct (pickGoldenCommands_get dict config g lang) as (g' & ->).
  destruct (sampleSize_spec (filterCmds config (dict lang))
              (GOLDEN_CMDS_PER_LANG config) g') as ((rest & Hp) & _).
  apply (filterCmds_NoDup config) in Hnd.
  symmetry in Hp. apply (Permutation_NoDup Hp) in Hnd.
  now apply List.NoDup_app_remove_r in Hnd.
Qed.

Lemma pickGoldenCommands_NoDup_witness :
  let dict : Dictionary :=
    fun _ => ["ls"; "cd"; "pwd"; "_x"; "cat"]%string in
  let config := {| GOLDEN_CMDS_MAX_LENGTH := 10; GOLDEN_CMDS_PER_LANG := 3 |} in
  List.NoDup
    (Golden.bash (fst (pickGoldenCommands dict config (fun k => 5 * k)%nat))).
Proof.
  cbv zeta.
  apply (pickGoldenCommands_NoDup
           (fun _ => ["ls"; "cd"; "pwd"; "_x"; "cat"]%string)
           {| GOLDEN_CMDS_MAX_LENGTH := 10; GOLDEN_CMDS_PER_LANG := 3 |}
           (fun k => 5 * k)%nat Lang.bash).
  repeat constructor; simpl; intuition discriminate.
Defined.

(** X18. The number of golden commands of a language is the configured
    number when at least that many commands are eligible, the number of
    eligible commands when there are fewer, and zero when the configured
    number is negative. *)
Theorem pickGoldenCommands_size (dict : Dictionary) (config : Config)
    (g : Lodash.Random) (lang : Lang.t) :
  Z.of_nat
    (List.length (Golden.get lang (fst (pickGoldenCommands dict config g))))
  = Z.min (Z.max 0 (GOLDEN_CMDS_PER_LANG config))
      (Z.of_nat (List.length (filterCmds config (dict lang)))).
Proof.
  destruct (pickGoldenCommands_get dict config g lang) as (g' & ->).
  destruct (sampleSize_spec (filterCmds config (dict lang))
              (GOLDEN_CMDS_PER_LANG config) g') as (_ & -> & _).
  unfold Lodash.baseClamp.
  destruct (Z.leb_spec (GOLDEN_CMDS_PER_LANG config)
              (Z.of_nat (List.length (filterCmds config (dict lang)))));
    destruct (Z.geb_spec (GOLDEN_CMDS_PER_LANG config) 0);
    try destruct (Z.geb_spec
                    (Z.of_nat (List.length (filterCmds config (dict lang))))
                    0); lia.
Qed.

(* ================================================================== *)
(** ** Enter comes before the filter *)
(* ================================================================== *)



